(** * Signal: the technical-indicator engine, candle series and fallback
      signal heuristic of the XAUUSD dashboard

    Shallow embedding of [utils.ts], of the market-state handling of
    [App.tsx], of the simulation branch and key selection of
    [services/geminiService.ts] and of the candle building, simulated
    history and provider selection of [services/marketService.ts], with the
    properties stated for them.

    Numbers.  A JavaScript number is modelled as an exact rational or one of
    the special values [Infinity], [-Infinity], [NaN]; [undefined] (what an
    out-of-range array read yields) is a fifth value.  Arithmetic on finite
    values is exact: binary64 rounding and the sign of zero are outside the
    model.  Integral quantities the code only counts or compares (array
    lengths, indices, periods, epoch milliseconds) are integers.

    Rounding.  The code computes in binary64, where every operation rounds
    its result to 53 significant bits and overflows to an infinity beyond
    about 1.8e308.  A statement that only counts, selects or compares
    stored values is not affected.  A statement about computed values is
    given the form that survives the rounding: its inputs are bounded
    ([price_bound], [magnitude_bound], so that nothing overflows), a
    coincidence of computed values is asked up to [tolerance], far above
    the rounding error at the bounded magnitudes, and an order between
    computed values is asked only where it holds by monotonicity of the
    rounded operations or where the exact values are at least
    [least_range] apart.  [Binary64] shows on the pivot levels what the
    rounding does otherwise. *)

From Stdlib Require Import ZArith QArith Qround Qabs Qminmax.
From Stdlib Require Import List Sorted Bool Lia Lqa.
From Stdlib Require String.
From Stdlib Require PrimFloat.
Import ListNotations.
Import String.StringSyntax.
Delimit Scope string_scope with string.

Set Implicit Arguments.

(* ================================================================== *)
(** * JavaScript numbers and arrays *)
(* ================================================================== *)

Module JS.

Inductive num : Type :=
| Fin (q : Q)
| PInf
| NInf
| NaN
| Undef.

(** Finite results are kept in lowest terms, so that a computed value has
    one representation. *)
Definition fin (q : Q) : num := Fin (Qred q).

Definition of_Z (z : Z) : num := Fin (inject_Z z).

Definition Qzero (q : Q) : bool := Qeq_bool q 0.
Definition Qpos (q : Q) : bool := negb (Qle_bool q 0).
Definition Qneg (q : Q) : bool := negb (Qle_bool 0 q).

(** [+] *)
Definition add (x y : num) : num :=
  match x, y with
  | Fin a, Fin b => fin (a + b)
  | Fin _, PInf | PInf, Fin _ | PInf, PInf => PInf
  | Fin _, NInf | NInf, Fin _ | NInf, NInf => NInf
  | _, _ => NaN
  end.

(** unary [-] *)
Definition neg (x : num) : num :=
  match x with
  | Fin a => fin (- a)
  | PInf => NInf
  | NInf => PInf
  | NaN | Undef => NaN
  end.

(** binary [-] *)
Definition sub (x y : num) : num :=
  match x, y with
  | Fin a, Fin b => fin (a - b)
  | Fin _, NInf | PInf, Fin _ | PInf, NInf => PInf
  | Fin _, PInf | NInf, Fin _ | NInf, PInf => NInf
  | _, _ => NaN
  end.

(** [Infinity] or [-Infinity]. *)
Definition inf_signed (positive : bool) : num :=
  if positive then PInf else NInf.

(** [*] *)
Definition mul (x y : num) : num :=
  match x, y with
  | Fin a, Fin b => fin (a * b)
  | Fin a, PInf | PInf, Fin a =>
      if Qzero a then NaN else inf_signed (Qpos a)
  | Fin a, NInf | NInf, Fin a =>
      if Qzero a then NaN else inf_signed (Qneg a)
  | PInf, PInf | NInf, NInf => PInf
  | PInf, NInf | NInf, PInf => NInf
  | _, _ => NaN
  end.

(** [/] : a non-zero finite value over zero is an infinity, zero over zero
    is [NaN], a finite value over an infinity is zero. *)
Definition div (x y : num) : num :=
  match x, y with
  | Fin a, Fin b =>
      if Qzero b
      then (if Qzero a then NaN else inf_signed (Qpos a))
      else fin (a / b)
  | Fin _, PInf | Fin _, NInf => Fin 0
  | PInf, Fin b => inf_signed (negb (Qneg b))
  | NInf, Fin b => inf_signed (Qneg b)
  | _, _ => NaN
  end.

(** [<]; every comparison with [NaN] or [undefined] is false. *)
Definition ltb (x y : num) : bool :=
  match x, y with
  | Fin a, Fin b => negb (Qle_bool b a)
  | Fin _, PInf | NInf, Fin _ | NInf, PInf => true
  | _, _ => false
  end.

(** [<=] *)
Definition leb (x y : num) : bool :=
  match x, y with
  | Fin a, Fin b => Qle_bool a b
  | Fin _, PInf | NInf, Fin _ | NInf, PInf | PInf, PInf | NInf, NInf => true
  | _, _ => false
  end.

(** [>] and [>=] *)
Definition gtb (x y : num) : bool := ltb y x.
Definition geb (x y : num) : bool := leb y x.

(** [===] *)
Definition strict_eq (x y : num) : bool :=
  match x, y with
  | Fin a, Fin b => Qeq_bool a b
  | PInf, PInf | NInf, NInf | Undef, Undef => true
  | _, _ => false
  end.

(** [!==] *)
Definition strict_ne (x y : num) : bool := negb (strict_eq x y).

(** Truthiness of a number or [undefined], as [||] tests it. *)
Definition truthy (x : num) : bool :=
  match x with
  | Fin a => negb (Qzero a)
  | PInf | NInf => true
  | NaN | Undef => false
  end.

(** [x || y] *)
Definition or_else (x y : num) : num := if truthy x then x else y.

(** [Math.max] of two arguments; [NaN] if either is not a number. *)
Definition max2 (x y : num) : num :=
  match x, y with
  | NaN, _ | _, NaN | Undef, _ | _, Undef => NaN
  | PInf, _ | _, PInf => PInf
  | NInf, z | z, NInf => z
  | Fin a, Fin b => if Qle_bool a b then Fin b else Fin a
  end.

Definition min2 (x y : num) : num :=
  match x, y with
  | NaN, _ | _, NaN | Undef, _ | _, Undef => NaN
  | NInf, _ | _, NInf => NInf
  | PInf, z | z, PInf => z
  | Fin a, Fin b => if Qle_bool a b then Fin a else Fin b
  end.

(** [Math.max(...xs)]: [-Infinity] for no argument. *)
Definition Math_max (xs : list num) : num := fold_left max2 xs NInf.

(** [Math.min(...xs)]: [Infinity] for no argument. *)
Definition Math_min (xs : list num) : num := fold_left min2 xs PInf.

Definition Math_abs (x : num) : num :=
  match x with
  | Fin a => fin (Qabs a)
  | PInf | NInf => PInf
  | NaN | Undef => NaN
  end.

Definition Math_floor (x : num) : num :=
  match x with
  | Fin a => of_Z (Qfloor a)
  | Undef => NaN
  | _ => x
  end.

(** [Math.pow(x, 2)] *)
Definition Math_pow2 (x : num) : num := mul x x.

(** [parseFloat(x.toFixed(digits))] with [scale = 10^digits].  [toFixed]
    picks the integer [n] with [n / scale] nearest to [|x|], the larger one
    on a tie, and prints it with the sign of [x]; from [10^21] on it prints
    the number itself; [NaN] and the infinities print and parse as
    themselves.  It is only applied to results of arithmetic, which are
    never [undefined].  The host rounds the binary64 value it has computed
    and reads the decimals back as the nearest binary64 number; here the
    exact value of the computation is rounded and the decimals are kept as
    they are, so that the two can differ by the rounding error of the
    argument and, next to a tie, by one hundredth. *)
Definition round_scaled (scale : Z) (x : num) : num :=
  match x with
  | Fin a =>
      if Qle_bool (inject_Z (10 ^ 21)) (Qabs a) then Fin a
      else
        let n := Qfloor (Qabs a * inject_Z scale + (1 # 2)) in
        let r := inject_Z n / inject_Z scale in
        fin (if Qneg a then - r else r)
  | Undef => NaN
  | _ => x
  end.

Definition toFixed2 : num -> num := round_scaled 100.

(** ** Arrays *)

Definition len {A} (l : list A) : Z := Z.of_nat (length l).

(** [l[i]]: [undefined] outside the array. *)
Definition get (l : list num) (i : Z) : num :=
  if (i <? 0)%Z then Undef else nth (Z.to_nat i) l Undef.

(** [l[i]] for an array of objects. *)
Definition get_obj {A} (l : list A) (i : Z) : option A :=
  if (i <? 0)%Z then None else nth_error l (Z.to_nat i).

(** The index a relative [start] or [end] of [slice] denotes. *)
Definition clamp_index (n : Z) (rel : Z) : Z :=
  if (rel <? 0)%Z then Z.max (n + rel) 0 else Z.min rel n.

(** [l.slice(start)] *)
Definition slice_from {A} (start : Z) (l : list A) : list A :=
  skipn (Z.to_nat (clamp_index (len l) start)) l.

(** [l.slice(start, end)] *)
Definition slice {A} (start stop : Z) (l : list A) : list A :=
  let k := clamp_index (len l) start in
  let e := clamp_index (len l) stop in
  firstn (Z.to_nat (e - k)) (skipn (Z.to_nat k) l).

(** [l.reduce((a, b) => a + b, 0)] *)
Definition sum (l : list num) : num := fold_left add l (Fin 0).

(** The integers [lo], [lo+1], ..., [hi-1]: the values a counting loop
    [for (i = lo; i < hi; i++)] gives its index. *)
Definition range (lo hi : Z) : list Z :=
  map (fun k => (lo + Z.of_nat k)%Z) (seq 0 (Z.to_nat (hi - lo))).

End JS.

Import JS.

(* ================================================================== *)
(** * Data model ([types.ts]) *)
(* ================================================================== *)

Inductive Timeframe : Type := M1 | M5 | M15.

Inductive SignalType : Type := BUY | SELL | NEUTRAL | WAIT.

Definition SignalType_eqb (a b : SignalType) : bool :=
  match a, b with
  | BUY, BUY | SELL, SELL | NEUTRAL, NEUTRAL | WAIT, WAIT => true
  | _, _ => false
  end.

Definition Timeframe_eqb (a b : Timeframe) : bool :=
  match a, b with
  | M1, M1 | M5, M5 | M15, M15 => true
  | _, _ => false
  end.

(** The [reasoning] text of a signal is display only and is left out. *)
Record SignalData : Type := mkSignalData {
  type : SignalType;
  confidence : num;
  entryPrice : num;
  stopLoss : num;
  takeProfit : num;
  timestamp : Z
}.

Record MACD : Type := mkMACD {
  macdLine : num;
  signalLine : num;
  histogram : num
}.

Record BollingerBands : Type := mkBollinger {
  upper : num;
  middle : num;
  lower : num
}.

Inductive CloudStatus : Type := ABOVE | BELOW | INSIDE.

Record Ichimoku : Type := mkIchimoku {
  tenkan : num;
  kijun : num;
  cloudStatus : CloudStatus
}.

Record PivotPoints : Type := mkPivots {
  pivot : num;
  r1 : num;
  s1 : num;
  r2 : num;
  s2 : num
}.

Record MarketData : Type := mkMarketData {
  price : num;
  change : num;
  changePercent : num;
  high : num;
  low : num;
  volume : num;
  rsi : num;
  ma50 : num;
  ema200 : num;
  macd : MACD;
  bollinger : BollingerBands;
  stochK : num;
  stochD : num;
  atr : num;
  adx : num;
  ichimoku : Ichimoku;
  pivots : PivotPoints
}.

(** The price fields of a candle carry the prefix [c_]: [high], [low] and
    [volume] already name fields of [MarketData]. *)
Record Candle : Type := mkCandle {
  time : Z;
  c_open : num;
  c_high : num;
  c_low : num;
  c_close : num;
  c_volume : num
}.

Record Stochastic : Type := mkStochastic {
  k : num;
  d : num
}.

(* ================================================================== *)
(** * The indicator library ([utils.ts]) *)
(* ================================================================== *)

Section Indicators.

(** [Math.sqrt].  Exact rationals are not closed under square roots, so the
    host's root function is a parameter of the development; nothing is
    assumed about it. *)
Variable Math_sqrt : num -> num.

Definition calculateSMA (data : list num) (period : Z) : num :=
  if (len data <? period)%Z then get data (len data - 1)
  else
    let slice := slice_from (- period) data in
    let sum := JS.sum slice in
    div sum (of_Z period).

Definition calculateEMA (data : list num) (period : Z) : list num :=
  let k := div (Fin 2) (of_Z (period + 1)) in
  fold_left
    (fun emaArray i =>
       let ema := add (mul (get data i) k)
                      (mul (get emaArray (i - 1)) (sub (Fin 1) k)) in
       emaArray ++ [ema])
    (range 1 (len data))
    [get data 0].

Definition calculateMACD (prices : list num) : MACD :=
  if (len prices <? 26)%Z then mkMACD (Fin 0) (Fin 0) (Fin 0)
  else
    let ema12 := calculateEMA prices 12 in
    let ema26 := calculateEMA prices 26 in
    let macdLineArr :=
      map (fun i => sub (get ema12 i) (get ema26 i)) (range 0 (len prices)) in
    let signalLineArr := calculateEMA macdLineArr 9 in
    let currentMACD := get macdLineArr (len macdLineArr - 1) in
    let currentSignal := get signalLineArr (len signalLineArr - 1) in
    mkMACD currentMACD currentSignal (sub currentMACD currentSignal).

Definition calculateBollingerBands
    (prices : list num) (period : Z) (multiplier : num) : BollingerBands :=
  if (len prices <? period)%Z
  then mkBollinger (get prices (len prices - 1))
                   (get prices (len prices - 1))
                   (get prices (len prices - 1))
  else
    let sma := calculateSMA prices period in
    let slice := slice_from (- period) prices in
    let mean := div (JS.sum slice) (of_Z period) in
    let squaredDiffs := map (fun x => Math_pow2 (sub x mean)) slice in
    let standardDeviation :=
      Math_sqrt (div (JS.sum squaredDiffs) (of_Z period)) in
    {| middle := sma;
       upper := add sma (mul standardDeviation multiplier);
       lower := sub sma (mul standardDeviation multiplier) |}.

(** The true range of bar [i]. *)
Definition trueRange (highs lows closes : list num) (i : Z) : num :=
  Math_max [ sub (get highs i) (get lows i);
             Math_abs (sub (get highs i) (get closes (i - 1)));
             Math_abs (sub (get lows i) (get closes (i - 1))) ].

Definition calculateATR
    (highs lows closes : list num) (period : Z) : num :=
  if (len highs <? period + 1)%Z then Fin 1
  else
    let trs := map (trueRange highs lows closes) (range 1 (len highs)) in
    let slice := slice_from (- period) trs in
    div (JS.sum slice) (of_Z period).

Definition calculateStochastic
    (highs lows closes : list num) (period : Z) : Stochastic :=
  if (len highs <? period)%Z then mkStochastic (Fin 50) (Fin 50)
  else
    let currentClose := get closes (len closes - 1) in
    let periodHighs := slice_from (- period) highs in
    let periodLows := slice_from (- period) lows in
    let highestHigh := Math_max periodHighs in
    let lowestLow := Math_min periodLows in
    let k :=
      if strict_ne highestHigh lowestLow
      then mul (div (sub currentClose lowestLow)
                    (sub highestHigh lowestLow)) (Fin 100)
      else Fin 50 in
    mkStochastic k k.

(** The smoothed [(avgGain, avgLoss)] the two loops of [calculateRSI]
    leave. *)
Definition rsiAverages (prices : list num) (period : Z) : num * num :=
  let '(gains, losses) :=
    fold_left
      (fun '(gains, losses) i =>
         let diff := sub (get prices i) (get prices (i - 1)) in
         if geb diff (Fin 0) then (add gains diff, losses)
         else (gains, add losses (Math_abs diff)))
      (range 1 (period + 1))
      (Fin 0, Fin 0) in
  let avgGain0 := div gains (of_Z period) in
  let avgLoss0 := div losses (of_Z period) in
  fold_left
    (fun '(avgGain, avgLoss) i =>
       let diff := sub (get prices i) (get prices (i - 1)) in
       let currentGain := if gtb diff (Fin 0) then diff else Fin 0 in
       let currentLoss :=
         if ltb diff (Fin 0) then Math_abs diff else Fin 0 in
       (div (add (mul avgGain (of_Z (period - 1))) currentGain)
            (of_Z period),
        div (add (mul avgLoss (of_Z (period - 1))) currentLoss)
            (of_Z period)))
    (range (period + 1) (len prices))
    (avgGain0, avgLoss0).

Definition calculateRSI (prices : list num) (period : Z) : num :=
  if (len prices <? period + 1)%Z then Fin 50
  else
    let '(avgGain, avgLoss) := rsiAverages prices period in
    if strict_eq avgLoss (Fin 0) then Fin 100
    else
      let rs := div avgGain avgLoss in
      let rsi := sub (Fin 100) (div (Fin 100) (add (Fin 1) rs)) in
      toFixed2 rsi.

(** The directional movement [(plusDM, minusDM)] of bar [i]. *)
Definition directionalMove (highs lows : list num) (i : Z) : num * num :=
  let upMove := sub (get highs i) (get highs (i - 1)) in
  let downMove := sub (get lows (i - 1)) (get lows i) in
  if gtb upMove downMove && gtb upMove (Fin 0) then (upMove, Fin 0)
  else if gtb downMove upMove && gtb downMove (Fin 0) then (Fin 0, downMove)
  else (Fin 0, Fin 0).

Definition calculateADX
    (highs lows closes : list num) (period : Z) : num :=
  if (len highs <? period * 2)%Z then Fin 20
  else
    let idx := range 1 (len highs) in
    let trs := map (trueRange highs lows closes) idx in
    let plusDMs := map (fun i => fst (directionalMove highs lows i)) idx in
    let minusDMs := map (fun i => snd (directionalMove highs lows i)) idx in
    let smooth (xs : list num) : num :=
      fold_left
        (fun s i => add (sub s (div s (of_Z period))) (get xs i))
        (range period (len trs))
        (JS.sum (slice 0 period xs)) in
    let smoothTR := smooth trs in
    let smoothPlusDM := smooth plusDMs in
    let smoothMinusDM := smooth minusDMs in
    let plusDI := mul (div smoothPlusDM smoothTR) (Fin 100) in
    let minusDI := mul (div smoothMinusDM smoothTR) (Fin 100) in
    let dx := mul (div (Math_abs (sub plusDI minusDI))
                       (add plusDI minusDI)) (Fin 100) in
    toFixed2 dx.

Definition getAverage (highs lows : list num) (period : Z) : num :=
  if (len highs <? period)%Z
  then div (add (get highs (len highs - 1)) (get lows (len lows - 1))) (Fin 2)
  else
    let sliceHigh := slice_from (- period) highs in
    let sliceLow := slice_from (- period) lows in
    div (add (Math_max sliceHigh) (Math_min sliceLow)) (Fin 2).

Definition calculateIchimoku (highs lows : list num) : Ichimoku :=
  let tenkan := getAverage highs lows 9 in
  let kijun := getAverage highs lows 26 in
  let cloudStatus := if gtb tenkan kijun then ABOVE else BELOW in
  mkIchimoku tenkan kijun cloudStatus.

Definition calculatePivotPoints (high low close : num) : PivotPoints :=
  let pivot := div (add (add high low) close) (Fin 3) in
  let r1 := sub (mul (Fin 2) pivot) low in
  let s1 := sub (mul (Fin 2) pivot) high in
  let r2 := add pivot (sub high low) in
  let s2 := sub pivot (sub high low) in
  mkPivots pivot r1 s1 r2 s2.

End Indicators.

(** ** The pivot levels in binary64

    The same five formulas on the kernel's binary64 numbers, whose
    operations round as the host's do. *)

Module Binary64.

Import PrimFloat.

Record PivotLevels : Type := mkLevels
  { pivot64 : float;
    r1_64 : float;
    s1_64 : float;
    r2_64 : float;
    s2_64 : float }.

Definition calculatePivotPoints (high low close : float) : PivotLevels :=
  let pivot := ((high + low + close) / 3)%float in
  let r1 := (2 * pivot - low)%float in
  let s1 := (2 * pivot - high)%float in
  let r2 := (pivot + (high - low))%float in
  let s2 := (pivot - (high - low))%float in
  mkLevels pivot r1 s1 r2 s2.

(** [s2 <= s1 <= pivot <= r1 <= r2] *)
Definition pivots_ordered (p : PivotLevels) : bool :=
  (s2_64 p <=? s1_64 p)%float && (s1_64 p <=? pivot64 p)%float
  && (pivot64 p <=? r1_64 p)%float && (r1_64 p <=? r2_64 p)%float.

(** The double nearest to 3000.04. *)
Definition price_3000_04 : float := 0x1.770147ae147aep+11%float.

(** The double nearest to 2730.68. *)
Definition price_2730_68 : float := 0x1.5555c28f5c28fp+11%float.

End Binary64.

(* ================================================================== *)
(** * Candle series and market state ([App.tsx]) *)
(* ================================================================== *)

Definition INITIAL_PRICE : num := Fin 2650.

Definition initialMarketData : MarketData :=
  {| price := INITIAL_PRICE;
     change := Fin 0;
     changePercent := Fin 0;
     high := INITIAL_PRICE;
     low := INITIAL_PRICE;
     volume := Fin 0;
     rsi := Fin 50;
     ma50 := INITIAL_PRICE;
     ema200 := INITIAL_PRICE;
     macd := mkMACD (Fin 0) (Fin 0) (Fin 0);
     bollinger := mkBollinger INITIAL_PRICE INITIAL_PRICE INITIAL_PRICE;
     stochK := Fin 50;
     stochD := Fin 50;
     atr := Fin (3 # 2);
     adx := Fin 20;
     ichimoku := mkIchimoku INITIAL_PRICE INITIAL_PRICE INSIDE;
     pivots := mkPivots INITIAL_PRICE INITIAL_PRICE INITIAL_PRICE
                        INITIAL_PRICE INITIAL_PRICE |}.

(** What [processIndicators] returns. *)
Record Techs : Type := mkTechs {
  t_rsi : num;
  t_ma50 : num;
  t_ema200 : num;
  t_macd : MACD;
  t_bollinger : BollingerBands;
  t_atr : num;
  t_stoch : Stochastic;
  t_adx : num;
  t_ichimoku : Ichimoku;
  t_pivots : PivotPoints
}.

(** The part of the component's state the market handling reads and
    writes: the [candlesRef] ref, the [candles] and [marketData] states and
    the calibration offset [priceOffset].  The simple chart's points and
    the connection flag are display state and are left out. *)
Record AppState : Type := mkAppState {
  candlesRef : list Candle;
  candles : list Candle;
  marketData : MarketData;
  priceOffset : num
}.

Definition initialState : AppState :=
  {| candlesRef := []; candles := []; marketData := initialMarketData;
     priceOffset := Fin 0 |}.

(** The capacity of the candle buffer. *)
Definition CAPACITY : Z := 300.

(** The candle-series update of the tick callback: the bar still open is
    amended in place, any other candle is appended and the buffer is then
    kept within its capacity by dropping its first element. *)
Definition updateHistory (stored : list Candle) (newCandle : Candle)
  : list Candle :=
  let lastStored := get_obj stored (len stored - 1) in
  let sameBucket :=
    match lastStored with
    | Some ls => (time ls =? time newCandle)%Z
    | None => false
    end in
  if sameBucket
  then firstn (length stored - 1) stored ++ [newCandle]
  else
    let updatedHistory := stored ++ [newCandle] in
    if (len updatedHistory >? CAPACITY)%Z
    then tl updatedHistory
    else updatedHistory.

Section Market.

Variable Math_sqrt : num -> num.

(** [processIndicators]; [None] is the [TypeError] of reading a field of
    the last candle of an empty series. *)
Definition processIndicators (candles : list Candle) : option Techs :=
  let closes := map c_close candles in
  let highs := map c_high candles in
  let lows := map c_low candles in
  let rsi := calculateRSI closes 14 in
  let ma50 := calculateSMA closes 50 in
  let ema200Arr := calculateEMA closes 200 in
  let ema200 := or_else (get ema200Arr (len ema200Arr - 1)) ma50 in
  let macd := calculateMACD closes in
  let bollinger := calculateBollingerBands Math_sqrt closes 20 (Fin 2) in
  let atr := calculateATR highs lows closes 14 in
  let stoch := calculateStochastic highs lows closes 14 in
  let adx := calculateADX highs lows closes 14 in
  let ichimoku := calculateIchimoku highs lows in
  match get_obj candles (len candles - 1) with
  | None => None
  | Some lastCandle =>
      let pivots :=
        calculatePivotPoints (c_high lastCandle) (c_low lastCandle)
                             (c_close lastCandle) in
      Some (mkTechs rsi ma50 ema200 macd bollinger atr stoch adx
                    ichimoku pivots)
  end.

(** [initMarket] once [fetchHistoricalData] has resolved with [history]:
    the states are cleared, and a non-empty history replaces the series and
    yields a fresh snapshot. *)
Definition loadHistory (history : list Candle) (st : AppState)
  : option AppState :=
  let st := {| candlesRef := candlesRef st; candles := [];
               marketData := marketData st;
               priceOffset := priceOffset st |} in
  if (len history >? 0)%Z then
    match get_obj history (len history - 1) with
    | None => None
    | Some lastCandle =>
        let prevCandle :=
          match get_obj history (len history - 2) with
          | Some c => c
          | None => lastCandle
          end in
        match processIndicators history with
        | None => None
        | Some techs =>
            Some {| candlesRef := history;
                    candles := history;
                    marketData :=
                      {| price := c_close lastCandle;
                         change := sub (c_close lastCandle)
                                       (c_close prevCandle);
                         changePercent :=
                           mul (div (sub (c_close lastCandle)
                                         (c_close prevCandle))
                                    (c_close prevCandle)) (Fin 100);
                         high := c_high lastCandle;
                         low := c_low lastCandle;
                         volume := c_volume lastCandle;
                         rsi := t_rsi techs;
                         ma50 := t_ma50 techs;
                         ema200 := t_ema200 techs;
                         macd := t_macd techs;
                         bollinger := t_bollinger techs;
                         stochK := k (t_stoch techs);
                         stochD := d (t_stoch techs);
                         atr := t_atr techs;
                         adx := t_adx techs;
                         ichimoku := t_ichimoku techs;
                         pivots := t_pivots techs |};
                    priceOffset := priceOffset st |}
        end
    end
  else Some st.

(** The callback given to [subscribeToMarket], run on every tick. *)
Definition onTick (newCandle : Candle) (st : AppState) : option AppState :=
  let updatedHistory := updateHistory (candlesRef st) newCandle in
  match processIndicators updatedHistory with
  | None => None
  | Some techs =>
      let prevClose :=
        if (len updatedHistory >? 1)%Z
        then option_map c_close
               (get_obj updatedHistory (len updatedHistory - 2))
        else Some (c_open newCandle) in
      match prevClose with
      | None => None
      | Some prevClose =>
      let prev := marketData st in
      Some {| candlesRef := updatedHistory;
              candles := updatedHistory;
              marketData :=
                {| price := c_close newCandle;
                   change := sub (c_close newCandle) prevClose;
                   changePercent :=
                     if strict_ne prevClose (Fin 0)
                     then mul (div (sub (c_close newCandle) prevClose)
                                   prevClose) (Fin 100)
                     else Fin 0;
                   high := max2 (high prev) (c_high newCandle);
                   low := min2 (low prev) (c_low newCandle);
                   volume := c_volume newCandle;
                   rsi := t_rsi techs;
                   ma50 := t_ma50 techs;
                   ema200 := t_ema200 techs;
                   macd := t_macd techs;
                   bollinger := t_bollinger techs;
                   stochK := k (t_stoch techs);
                   stochD := d (t_stoch techs);
                   atr := t_atr techs;
                   adx := t_adx techs;
                   ichimoku := t_ichimoku techs;
                   pivots := t_pivots techs |};
              priceOffset := priceOffset st |}
      end
  end.

(** A streaming session: the ticks handled one after the other. *)
Fixpoint run_ticks (ticks : list Candle) (st : AppState)
  : option AppState :=
  match ticks with
  | [] => Some st
  | newCandle :: rest =>
      match onTick newCandle st with
      | Some st' => run_ticks rest st'
      | None => None
      end
  end.

End Market.

(** [displayData]: the snapshot with the calibration offset applied. *)
Definition displayData (st : AppState) : MarketData :=
  let marketData := marketData st in
  let offset := priceOffset st in
  {| price := add (price marketData) offset;
     change := change marketData;
     changePercent := changePercent marketData;
     high := add (high marketData) offset;
     low := add (low marketData) offset;
     volume := volume marketData;
     rsi := rsi marketData;
     ma50 := add (ma50 marketData) offset;
     ema200 := add (ema200 marketData) offset;
     macd := macd marketData;
     bollinger :=
       {| upper := add (upper (bollinger marketData)) offset;
          middle := add (middle (bollinger marketData)) offset;
          lower := add (lower (bollinger marketData)) offset |};
     stochK := stochK marketData;
     stochD := stochD marketData;
     atr := atr marketData;
     adx := adx marketData;
     ichimoku :=
       {| tenkan := add (tenkan (ichimoku marketData)) offset;
          kijun := add (kijun (ichimoku marketData)) offset;
          cloudStatus := cloudStatus (ichimoku marketData) |};
     pivots :=
       {| pivot := add (pivot (pivots marketData)) offset;
          r1 := add (r1 (pivots marketData)) offset;
          s1 := add (s1 (pivots marketData)) offset;
          r2 := add (r2 (pivots marketData)) offset;
          s2 := add (s2 (pivots marketData)) offset |} |}.

(** [displayCandles] *)
Definition displayCandles (st : AppState) : list Candle :=
  let offset := priceOffset st in
  map (fun c =>
         {| time := time c;
            c_open := add (c_open c) offset;
            c_high := add (c_high c) offset;
            c_low := add (c_low c) offset;
            c_close := add (c_close c) offset;
            c_volume := c_volume c |})
      (candles st).

(** [aiData] of [runBatchScanner]: the snapshot handed to
    [analyzeAllTimeframes]. *)
Definition aiData (st : AppState) : MarketData :=
  let currentRaw := marketData st in
  let currentOffset := priceOffset st in
  {| price := add (price currentRaw) currentOffset;
     change := change currentRaw;
     changePercent := changePercent currentRaw;
     high := high currentRaw;
     low := low currentRaw;
     volume := volume currentRaw;
     rsi := rsi currentRaw;
     ma50 := ma50 currentRaw;
     ema200 := add (ema200 currentRaw) currentOffset;
     macd := macd currentRaw;
     bollinger :=
       {| upper := add (upper (bollinger currentRaw)) currentOffset;
          middle := add (middle (bollinger currentRaw)) currentOffset;
          lower := add (lower (bollinger currentRaw)) currentOffset |};
     stochK := stochK currentRaw;
     stochD := stochD currentRaw;
     atr := atr currentRaw;
     adx := adx currentRaw;
     ichimoku :=
       {| tenkan := add (tenkan (ichimoku currentRaw)) currentOffset;
          kijun := add (kijun (ichimoku currentRaw)) currentOffset;
          cloudStatus := cloudStatus (ichimoku currentRaw) |};
     pivots :=
       {| pivot := add (pivot (pivots currentRaw)) currentOffset;
          r1 := add (r1 (pivots currentRaw)) currentOffset;
          s1 := add (s1 (pivots currentRaw)) currentOffset;
          r2 := add (r2 (pivots currentRaw)) currentOffset;
          s2 := add (s2 (pivots currentRaw)) currentOffset |} |}.

(** [handleCalibrate], with [userPrice] the parsed manual price: the offset
    becomes the gap between the broker's price and the raw feed price. *)
Definition handleCalibrate (userPrice : num) (st : AppState) : AppState :=
  let isNaN := match userPrice with NaN | Undef => true | _ => false end in
  if negb isNaN && gtb userPrice (Fin 0)
  then {| candlesRef := candlesRef st; candles := candles st;
          marketData := marketData st;
          priceOffset := sub userPrice (price (marketData st)) |}
  else st.

(* ================================================================== *)
(** * The fallback signal heuristic ([services/geminiService.ts]) *)
(* ================================================================== *)

(** [generateOne] of [generateBatchMockSignals].  [random] is the value
    [Math.random()] returns for this signal and [timestamp] the value of
    [Date.now()] taken once for the batch. *)
Definition generateOne
    (data : MarketData) (timestamp : Z) (random : num) (tf : Timeframe)
  : SignalData :=
  let trendBullish :=
    gtb (price data) (ema200 data)
    && gtb (price data) (kijun (ichimoku data)) in
  let trendBearish :=
    ltb (price data) (ema200 data)
    && ltb (price data) (kijun (ichimoku data)) in
  let momBullish :=
    ltb (rsi data) (Fin 45) && gtb (histogram (macd data)) (Fin 0) in
  let momBearish :=
    gtb (rsi data) (Fin 55) && ltb (histogram (macd data)) (Fin 0) in
  let type0 := NEUTRAL in
  let confidence0 := Fin 50 in
  let '(type, confidence) :=
    if trendBullish && momBullish then (BUY, Fin 80)
    else if trendBearish && momBearish then (SELL, Fin 80)
    else if ltb (adx data) (Fin 20) then
      if leb (price data) (lower (bollinger data)) then (BUY, Fin 65)
      else if geb (price data) (upper (bollinger data)) then (SELL, Fin 65)
      else (WAIT, confidence0)
    else (WAIT, confidence0) in
  let atrMultiplier :=
    if Timeframe_eqb tf M1 then Fin (3 # 2) else Fin 2 in
  let slDist := mul (atr data) atrMultiplier in
  let tpDist := mul slDist (Fin 2) in
  {| type := type;
     confidence := Math_floor (add confidence (mul random (Fin 5)));
     entryPrice := price data;
     stopLoss :=
       toFixed2 (add (price data)
                     (if SignalType_eqb type BUY then neg slDist
                      else slDist));
     takeProfit :=
       toFixed2 (add (price data)
                     (if SignalType_eqb type BUY then tpDist
                      else neg tpDist));
     timestamp := timestamp |}.

(** [generateBatchMockSignals]: one signal per timeframe, each with its own
    random draw. *)
Definition generateBatchMockSignals
    (data : MarketData) (timestamp : Z) (random : Timeframe -> num)
  : Timeframe -> SignalData :=
  fun tf => generateOne data timestamp (random tf) tf.

(* ================================================================== *)
(** * The Ichimoku chart series ([utils.ts]) *)
(* ================================================================== *)

(** A point [{ time, value }] of a chart line. *)
Record LinePoint : Type := mkLinePoint {
  lp_time : num;
  lp_value : num
}.

Record IchimokuData : Type := mkIchimokuData {
  tenkanSeries : list LinePoint;
  kijunSeries : list LinePoint;
  spanASeries : list LinePoint;
  spanBSeries : list LinePoint
}.

(** [getHL2]: the midpoint of the highest high and the lowest low of the
    [period] bars ending at [index]; [None] is [null], returned while the
    window is not full. *)
Definition getHL2 (highs lows : list num) (index period : Z) : option num :=
  if (index <? period - 1)%Z then None
  else
    let sliceHigh := slice (index - period + 1) (index + 1) highs in
    let sliceLow := slice (index - period + 1) (index + 1) lows in
    Some (div (add (Math_max sliceHigh) (Math_min sliceLow)) (Fin 2)).

(** The body of the loop of [generateIchimokuData] for the candle [c] at
    index [i]. *)
Definition ichimokuStep (highs lows : list num)
    (s : IchimokuData) (ic : Z * Candle) : IchimokuData :=
  let '(i, c) := ic in
  let time := div (of_Z (time c)) (Fin 1000) in
  let tenkan := getHL2 highs lows i 9 in
  let tenkanSeries :=
    match tenkan with
    | Some v => tenkanSeries s ++ [mkLinePoint time v]
    | None => tenkanSeries s
    end in
  let kijun := getHL2 highs lows i 26 in
  let kijunSeries :=
    match kijun with
    | Some v => kijunSeries s ++ [mkLinePoint time v]
    | None => kijunSeries s
    end in
  let spanASeries :=
    match tenkan, kijun with
    | Some t, Some k =>
        let spanA := div (add t k) (Fin 2) in
        let futureTime := add time (mul (Fin 26) (Fin 60)) in
        spanASeries s ++ [mkLinePoint futureTime spanA]
    | _, _ => spanASeries s
    end in
  let spanBVal := getHL2 highs lows i 52 in
  let spanBSeries :=
    match spanBVal with
    | Some v =>
        let futureTime := add time (mul (Fin 26) (Fin 60)) in
        spanBSeries s ++ [mkLinePoint futureTime v]
    | None => spanBSeries s
    end in
  mkIchimokuData tenkanSeries kijunSeries spanASeries spanBSeries.

Definition generateIchimokuData (candles : list Candle) : IchimokuData :=
  let highs := map c_high candles in
  let lows := map c_low candles in
  fold_left (ichimokuStep highs lows)
            (combine (range 0 (len candles)) candles)
            (mkIchimokuData [] [] [] []).

(* ================================================================== *)
(** * The market-data service ([services/marketService.ts]) *)
(* ================================================================== *)

Inductive DataSource : Type := BINANCE | TWELVEDATA.

(** The two module-level variables of the service. *)
Record ServiceConfig : Type := mkServiceConfig {
  currentDataSource : DataSource;
  twelveDataApiKey : String.string
}.

Definition initialConfig : ServiceConfig :=
  {| currentDataSource := BINANCE; twelveDataApiKey := ""%string |}.

(** Truthiness of an optional string: [undefined] and [""] are falsy. *)
Definition truthy_string (s : option String.string) : bool :=
  match s with
  | Some k => negb (String.eqb k ""%string)
  | None => false
  end.

(** [configureMarketService(source, apiKey)] *)
Definition configureMarketService
    (source : DataSource) (apiKey : option String.string)
    (cfg : ServiceConfig) : ServiceConfig :=
  {| currentDataSource := source;
     twelveDataApiKey :=
       match apiKey with
       | Some k => if truthy_string apiKey then k else twelveDataApiKey cfg
       | None => twelveDataApiKey cfg
       end |}.

(** The test [currentDataSource === 'TWELVEDATA' && twelveDataApiKey] by
    which [fetchHistoricalData] and [subscribeToMarket] pick the Twelve
    Data provider over Binance. *)
Definition usesTwelveData (cfg : ServiceConfig) : bool :=
  match currentDataSource cfg with
  | TWELVEDATA => truthy_string (Some (twelveDataApiKey cfg))
  | BINANCE => false
  end.

(** [Math.floor(now / 60000) * 60000] for the integer [now] of
    [Date.now()]. *)
Definition minuteStart (now : Z) : Z := (now / 60000 * 60000)%Z.

(** The candle [subscribeTwelveDataWS] starts from. *)
Definition twelveInitialCandle (now : Z) (initialPrice : num) : Candle :=
  {| time := minuteStart now;
     c_open := initialPrice;
     c_high := initialPrice;
     c_low := initialPrice;
     c_close := initialPrice;
     c_volume := Fin 0 |}.

(** The handler of a [price] event of the Twelve Data socket: [price] is
    the parsed quote, [now] the value of [Date.now()], [currentCandle] the
    candle being built.  The result is the new [currentCandle], a copy of
    which goes to [onUpdate]. *)
Definition twelveOnPrice (price : num) (now : Z) (currentCandle : Candle)
  : Candle :=
  let currentCandle :=
    if (minuteStart now >? time currentCandle)%Z
    then {| time := minuteStart now;
            c_open := price; c_high := price; c_low := price;
            c_close := price; c_volume := Fin 0 |}
    else currentCandle in
  {| time := time currentCandle;
     c_open := c_open currentCandle;
     c_high := max2 (c_high currentCandle) price;
     c_low := min2 (c_low currentCandle) price;
     c_close := price;
     c_volume := c_volume currentCandle |}.

(** The candles the socket hands to [onUpdate] for a sequence of price
    events, each a quote with the clock reading at its arrival. *)
Fixpoint twelveUpdates (events : list (num * Z)) (currentCandle : Candle)
  : list Candle :=
  match events with
  | [] => []
  | (price, now) :: rest =>
      let c := twelveOnPrice price now currentCandle in
      c :: twelveUpdates rest c
  end.

(** The values of the loop index of [for (i = hi; i > 0; i--)]. *)
Definition countdown (hi : Z) : list Z :=
  map (fun k => (hi - Z.of_nat k)%Z) (seq 0 (Z.to_nat hi)).

(** [generateMockHistory(limit)].  [now] is the value of [Date.now()] and
    [random j] the value of the [j]-th call of [Math.random()], of which
    every bar takes four: for the change, the high, the low and the
    volume. *)
Definition mockStep (endTimestamp : Z) (random : nat -> num)
    (s : list Candle * num * nat) (i : Z) : list Candle * num * nat :=
  let '(candles, price, calls) := s in
  let time := (endTimestamp - i * 60000)%Z in
  let change := mul (sub (random calls) (Fin (1 # 2))) (Fin (3 # 2)) in
  let open := price in
  let close := add price change in
  let high := add (Math_max [open; close])
                  (mul (random (calls + 1)%nat) (Fin (1 # 2))) in
  let low := sub (Math_min [open; close])
                 (mul (random (calls + 2)%nat) (Fin (1 # 2))) in
  let volume := add (mul (random (calls + 3)%nat) (Fin 50)) (Fin 10) in
  (candles ++ [mkCandle time open high low close volume],
   close, (calls + 4)%nat).

Definition generateMockHistory (limit : Z) (now : Z) (random : nat -> num)
  : list Candle :=
  let endTimestamp := minuteStart now in
  fst (fst (fold_left (mockStep endTimestamp random) (countdown limit)
                      ([], Fin 2650, 0%nat))).

(* ================================================================== *)
(** * The alert test and the Gemini key ([App.tsx], [services/geminiService.ts]) *)
(* ================================================================== *)

(** The test of [runBatchScanner] for one signal: confidence of at least 80
    on a BUY or a SELL. *)
Definition highConfidence (s : SignalData) : bool :=
  geb (confidence s) (Fin 80)
  && (SignalType_eqb (type s) BUY || SignalType_eqb (type s) SELL).

(** [hasHighConfidence]: some signal of the batch passes the test. *)
Definition hasHighConfidence (signals : Timeframe -> SignalData) : bool :=
  existsb (fun tf => highConfidence (signals tf)) [M1; M5; M15].

(** [validEnvKey] of [analyzeAllTimeframes], for the value [envKey] of
    [process.env.API_KEY]. *)
Definition validEnvKey (envKey : option String.string)
  : option String.string :=
  match envKey with
  | Some k =>
      if truthy_string envKey
         && negb (String.eqb k "undefined"%string)
         && (5 <? String.length k)%nat
      then Some k else None
  | None => None
  end.

(** [effectiveKey = userApiKey || validEnvKey] *)
Definition effectiveKey (userApiKey envKey : option String.string)
  : option String.string :=
  if truthy_string userApiKey then userApiKey else validEnvKey envKey.

(** [!effectiveKey]: the service answers with the simulation without
    calling the model. *)
Definition simulationMode (userApiKey envKey : option String.string)
  : bool :=
  negb (truthy_string (effectiveKey userApiKey envKey)).

(** [hasServerKey] of [App.tsx]. *)
Definition hasServerKey (envKey : option String.string) : bool :=
  match envKey with
  | Some k =>
      truthy_string envKey && (5 <? String.length k)%nat
      && negb (String.eqb k "undefined"%string)
  | None => false
  end.

(* ================================================================== *)
(** * Vocabulary of the properties *)
(* ================================================================== *)

(** ** Finite values *)

Definition finite (x : num) : Prop := exists q, x = Fin q.

(** [x] is the finite number [q]. *)
Definition num_is (x : num) (q : Q) : Prop :=
  exists q', x = Fin q' /\ q' == q.

(** [0 <= x && x <= 100] *)
Definition in_0_100 (x : num) : bool := leb (Fin 0) x && leb x (Fin 100).

(** ** Bounds and tolerance *)




(** The magnitude up to which values are considered where they are only
    added up or divided: [10^100], which keeps sums of as many terms as an
    array can hold, and quotients by values of at least [10^-100], far from
    the overflow of binary64. *)
Definition magnitude_bound : Q := inject_Z (10 ^ 100).

(** A finite value of magnitude at most [B]. *)
Definition within (B : Q) (x : num) : Prop :=
  exists q, x = Fin q /\ Qabs q <= B.

(** A finite value that is zero or of magnitude between [1 / B] and [B]. *)
Definition moderate (B : Q) (x : num) : Prop :=
  exists q, x = Fin q /\ Qabs q <= B /\ (q == 0 \/ 1 / B <= Qabs q).




(** ** Arrays and bars *)

(** [r] is the last element of [data]. *)
Definition is_last_of (data : list num) (r : num) : Prop :=
  exists init, data = init ++ [r].

(** A bar whose high, low and close are finite with
    low <= close <= high. *)
Definition well_formed (c : Candle) : Prop :=
  exists h l cl,
    c_high c = Fin h /\ c_low c = Fin l /\ c_close c = Fin cl
    /\ l <= cl /\ cl <= h.

(** A bar whose high and low are of magnitude at most [B]. *)
Definition range_within (B : Q) (c : Candle) : Prop :=
  within B (c_high c) /\ within B (c_low c).

(** Whether the tick amends the bar still open: the series is non-empty and
    its last candle has the time of the new one. *)
Definition same_bucket (stored : list Candle) (c : Candle) : Prop :=
  exists init ls, stored = init ++ [ls] /\ time ls = time c.

(** ** The statements examined *)

(** SMA and the three Bollinger bands return the last close. *)
Definition last_close_fallback
    (sqrt : num -> num) (data : list num) (p : Z) (mult : num) : Prop :=
  is_last_of data (calculateSMA data p)
  /\ is_last_of data (upper (calculateBollingerBands sqrt data p mult))
  /\ is_last_of data (middle (calculateBollingerBands sqrt data p mult))
  /\ is_last_of data (lower (calculateBollingerBands sqrt data p mult)).

(** [s2 <= s1 <= pivot <= r1 <= r2] *)
Definition pivots_ordered (p : PivotPoints) : bool :=
  leb (s2 p) (s1 p) && leb (s1 p) (pivot p)
  && leb (pivot p) (r1 p) && leb (r1 p) (r2 p).



(** The state with its calibration offset replaced. *)
Definition with_offset (o : num) (st : AppState) : AppState :=
  {| candlesRef := candlesRef st; candles := candles st;
     marketData := marketData st; priceOffset := o |}.

(** The price levels of a snapshot: price, high, low, the two moving
    averages, the three bands, the two Ichimoku lines and the five pivot
    levels. *)
Definition price_levels (m : MarketData) : list num :=
  [ price m; high m; low m; ma50 m; ema200 m;
    upper (bollinger m); middle (bollinger m); lower (bollinger m);
    tenkan (ichimoku m); kijun (ichimoku m);
    pivot (pivots m); r1 (pivots m); s1 (pivots m);
    r2 (pivots m); s2 (pivots m) ].

(** ** Sample data *)

(** A bar with all four prices equal to the integer [p]. *)
Definition bar (t : Z) (p : Z) : Candle :=
  mkCandle t (of_Z p) (of_Z p) (of_Z p) (of_Z p) (Fin 0).

(** A bar with the given open, high, low and close. *)
Definition ohlc (t : Z) (o h l c : Q) : Candle :=
  mkCandle t (Fin o) (Fin h) (Fin l) (Fin c) (Fin 0).

Definition two_bars : list Candle :=
  [ohlc 60000 7 10 5 7; ohlc 120000 7 12 6 11].

(** A session whose snapshot has high = low = 2650, and a later bar that
    stays below that high. *)
Definition session_state : AppState :=
  {| candlesRef := [bar 60000 2650]; candles := [bar 60000 2650];
     marketData := initialMarketData; priceOffset := Fin 0 |}.

Definition lower_bar : Candle :=
  mkCandle 120000 (Fin 2647) (Fin 2648) (Fin 2644) (Fin 2645) (Fin 1).

(** A ranging market at the lower Bollinger band: the heuristic says BUY. *)
Definition ranging_at_lower_band : MarketData :=
  {| price := Fin (2650123 # 1000);
     change := Fin 0;
     changePercent := Fin 0;
     high := Fin 2652;
     low := Fin 2650;
     volume := Fin 0;
     rsi := Fin 50;
     ma50 := Fin 2655;
     ema200 := Fin 2660;
     macd := mkMACD (Fin 0) (Fin 0) (Fin 0);
     bollinger := mkBollinger (Fin 2670) (Fin 2660) (Fin 2651);
     stochK := Fin 50;
     stochD := Fin 50;
     atr := Fin 1;
     adx := Fin 10;
     ichimoku := mkIchimoku (Fin 2660) (Fin 2660) BELOW;
     pivots := mkPivots (Fin 2651) (Fin 2652) (Fin 2650)
                        (Fin 2653) (Fin 2649) |}.

(** A session that loads a one-bar history (high 2652, low 2648, close
    2650) and is then calibrated to a broker price of 2660: the offset
    becomes 10. *)
Definition calibrated_session : option AppState :=
  option_map (handleCalibrate (Fin 2660))
    (loadHistory (fun x => x) [ohlc 60000 2650 2652 2648 2650]
                 initialState).

(** ** Further vocabulary *)


(** A finite value that is not negative. *)
Definition nonneg (x : num) : Prop := exists q, x = Fin q /\ 0 <= q.


(** The candle times of the bars from index [from] on, in seconds. *)
Definition times_from (from : nat) (candles : list Candle) : list num :=
  map (fun c => div (of_Z (time c)) (Fin 1000)) (skipn from candles).

(** A bar with finite prices whose open and close lie between its low and
    its high. *)
Definition ohlc_consistent (c : Candle) : Prop :=
  exists o h l cl,
    c_open c = Fin o /\ c_high c = Fin h /\ c_low c = Fin l
    /\ c_close c = Fin cl
    /\ l <= o /\ o <= h /\ l <= cl /\ cl <= h.

Definition times (l : list Candle) : list Z := map time l.

(** A value [Math.random()] can return: finite, in [0, 1). *)
Definition unit_interval (x : num) : Prop :=
  exists q, x = Fin q /\ 0 <= q /\ q < 1.

(** Each bar opens where the previous one closed, the first at [start]. *)
Fixpoint contiguous (start : num) (cs : list Candle) : Prop :=
  match cs with
  | [] => True
  | c :: rest => c_open c = start /\ contiguous (c_close c) rest
  end.

(** The five outcomes of the rule cascade: the type and the base
    confidence. *)
Definition cascade_outcomes : list (SignalType * Q) :=
  [(BUY, 80); (SELL, 80); (BUY, 65); (SELL, 65); (WAIT, 50)].


(** ** Further sample data *)

Definition key_12 : String.string := "demo-key-12"%string.




(** Three quotes, the last in a new minute. *)
Definition three_quotes : list (num * Z) :=
  [(Fin 2651, 60001%Z); (Fin 2649, 60500%Z); (Fin 2650, 120001%Z)].

(** Twenty-five rising bars and a twenty-sixth. *)
Definition rising_bars : list Candle :=
  map (fun i => bar (60000 * i) (2650 + i)) (range 0 25).

Definition bar_26 : Candle := bar (60000 * 25) 2675.

(** A random source that always draws the same value. *)
Definition constant_random (q : Q) : nat -> num := fun _ => Fin q.

(* ================================================================== *)
(** * Properties *)
(* ================================================================== *)


(** ** Arrays *)

Lemma len_app {A} (l1 l2 : list A) : len (l1 ++ l2) = (len l1 + len l2)%Z.
Proof. unfold len. rewrite length_app. lia. Qed.

Lemma len_nonneg {A} (l : list A) : (0 <= len l)%Z.
Proof. unfold len. lia. Qed.

Lemma get_last (init : list num) (c : num) :
  get (init ++ [c]) (len (init ++ [c]) - 1) = c.
Proof.
  unfold get. rewrite len_app. change (len [c]) with 1%Z.
  pose proof (len_nonneg init) as Hn.
  destruct (Z.ltb_spec (len init + 1 - 1) 0) as [Hlt | _]; [lia |].
  replace (Z.to_nat (len init + 1 - 1)) with (length init)
    by (unfold len; lia).
  now rewrite nth_middle.
Qed.

Lemma get_obj_last {A} (init : list A) (c : A) :
  get_obj (init ++ [c]) (len (init ++ [c]) - 1) = Some c.
Proof.
  unfold get_obj. rewrite len_app. change (len [c]) with 1%Z.
  pose proof (len_nonneg init) as Hn.
  destruct (Z.ltb_spec (len init + 1 - 1) 0) as [Hlt | _]; [lia |].
  replace (Z.to_nat (len init + 1 - 1)) with (length init)
    by (unfold len; lia).
  rewrite nth_error_app2 by lia. now rewrite Nat.sub_diag.
Qed.

Lemma get_obj_nil {A} (i : Z) : get_obj (@nil A) i = None.
Proof. unfold get_obj. destruct (i <? 0)%Z; [easy |]. now destruct (Z.to_nat i). Qed.

(** Every list is empty or ends in a last element. *)
Lemma list_last_cases {A} (l : list A) :
  l = [] \/ exists init x, l = init ++ [x].
Proof.
  destruct l as [| y l']; [now left | right].
  destruct (@exists_last _ (y :: l')) as [init [x Heq]]; [discriminate |].
  now exists init, x.
Qed.

Lemma range_length (lo hi : Z) : length (range lo hi) = Z.to_nat (hi - lo).
Proof. unfold range. now rewrite length_map, length_seq. Qed.

(** ** Warm-up fallbacks *)

(** C1, amended: for every period [p], every non-empty array shorter than
    [p] makes SMA return the last close and Bollinger Bands return three
    bands equal to the last close; every array shorter than [p], empty or
    not, makes ATR return 1, Stochastic return k = d = 50, RSI return 50 and
    ADX return 20. *)
Theorem C1_warmup_fallbacks
    (sqrt : num -> num) (p : Z) (mult : num)
    (data highs lows closes : list num)
    (Hdata : (len data < p)%Z) (Hhighs : (len highs < p)%Z) :
  (data <> [] -> last_close_fallback sqrt data p mult)
  /\ calculateATR highs lows closes p = Fin 1
  /\ calculateStochastic highs lows closes p = mkStochastic (Fin 50) (Fin 50)
  /\ calculateRSI data p = Fin 50
  /\ calculateADX highs lows closes p = Fin 20.
Proof.
  pose proof (len_nonneg data) as Hd0.
  pose proof (len_nonneg highs) as Hh0.
  split; [| split; [| split; [| split]]].
  - intros Hne.
    destruct (list_last_cases data) as [-> | [init [c Heq]]]; [congruence |].
    unfold last_close_fallback, is_last_of, calculateSMA,
      calculateBollingerBands.
    apply Z.ltb_lt in Hdata. rewrite Hdata. cbn [upper middle lower].
    subst data. rewrite get_last. repeat split; now exists init.
  - unfold calculateATR.
    destruct (Z.ltb_spec (len highs) (p + 1)); [reflexivity | lia].
  - unfold calculateStochastic.
    destruct (Z.ltb_spec (len highs) p); [reflexivity | lia].
  - unfold calculateRSI.
    destruct (Z.ltb_spec (len data) (p + 1)); [reflexivity | lia].
  - unfold calculateADX.
    destruct (Z.ltb_spec (len highs) (p * 2)); [reflexivity | lia].
Qed.

Lemma C1_warmup_fallbacks_witness :
  last_close_fallback (fun x => x) [Fin 2649; Fin 2651] 20 (Fin 2)
  /\ calculateATR [Fin 2652] [Fin 2648] [Fin 2651] 14 = Fin 1
  /\ calculateStochastic [Fin 2652] [Fin 2648] [Fin 2651] 14
     = mkStochastic (Fin 50) (Fin 50)
  /\ calculateRSI [Fin 2649; Fin 2651] 20 = Fin 50
  /\ calculateADX [Fin 2652] [Fin 2648] [Fin 2651] 14 = Fin 20.
Proof.
  destruct (@C1_warmup_fallbacks (fun x => x) 20 (Fin 2)
              [Fin 2649; Fin 2651] [Fin 2652] [Fin 2648] [Fin 2651])
    as [H1 [H2 [H3 [H4 H5]]]].
  - vm_compute. reflexivity.
  - vm_compute. reflexivity.
  - split; [apply H1; discriminate |].
    split; [exact H2 |]. split; [exact H3 |]. split; [exact H4 |].
    exact H5.
Defined.

(** C1 as stated fails on the empty array: it is shorter than the period 1,
    has no last close, and SMA and the three bands come back [undefined]. *)
Lemma C1_empty_array_counterexample :
  (len (@nil num) < 1)%Z
  /\ calculateSMA [] 1 = Undef
  /\ calculateBollingerBands (fun x => x) [] 1 (Fin 2)
     = mkBollinger Undef Undef Undef
  /\ ~ last_close_fallback (fun x => x) [] 1 (Fin 2).
Proof.
  repeat split.
  intros [[init Hsma] _]. now destruct init.
Qed.

(** ** The EMA series *)

(** A loop that pushes one element per index keeps the head of the array
    and grows it by the number of indices. *)
Lemma push_loop_shape (step : list num -> Z -> num) (idx : list Z) :
  forall (x : num) (acc : list num),
    exists rest,
      fold_left (fun arr i => arr ++ [step arr i]) idx (x :: acc) = x :: rest
      /\ length rest = (length acc + length idx)%nat.
Proof.
  induction idx as [| i idx IH]; intros x acc; cbn [fold_left].
  - exists acc. split; [reflexivity | cbn; lia].
  - change ((x :: acc) ++ [step (x :: acc) i])
      with (x :: (acc ++ [step (x :: acc) i])).
    destruct (IH x (acc ++ [step (x :: acc) i])) as [rest [Heq Hlen]].
    exists rest. split; [exact Heq |].
    rewrite Hlen, length_app. cbn. lia.
Qed.

Lemma calculateEMA_shape (data : list num) (period : Z) :
  exists rest,
    calculateEMA data period = get data 0 :: rest
    /\ length rest = Z.to_nat (len data - 1).
Proof.
  unfold calculateEMA.
  destruct (push_loop_shape
              (fun emaArray i =>
                 add (mul (get data i) (div (Fin 2) (of_Z (period + 1))))
                     (mul (get emaArray (i - 1))
                          (sub (Fin 1) (div (Fin 2) (of_Z (period + 1))))))
              (range 1 (len data)) (get data 0) [])
    as [rest [Heq Hlen]].
  exists rest. split; [exact Heq |].
  rewrite Hlen, range_length. reflexivity.
Qed.

(** C3, amended: for every non-empty array [data] and every period,
    [calculateEMA] returns an array as long as [data] whose first element is
    [data[0]]. *)
Theorem C3_ema_length_and_seed
    (data : list num) (period : Z) (Hne : data <> []) :
  length (calculateEMA data period) = length data
  /\ get (calculateEMA data period) 0 = get data 0
  /\ hd_error (calculateEMA data period) = hd_error data.
Proof.
  destruct (calculateEMA_shape data period) as [rest [Heq Hlen]].
  rewrite Heq. destruct data as [| x tl]; [congruence |].
  split; [| split]; [| reflexivity | reflexivity].
  cbn [length]. rewrite Hlen. unfold len. cbn [length]. lia.
Qed.

Lemma C3_ema_length_and_seed_witness :
  length (calculateEMA [Fin 1; Fin 2; Fin 4] 3) = 3%nat
  /\ get (calculateEMA [Fin 1; Fin 2; Fin 4] 3) 0 = Fin 1
  /\ hd_error (calculateEMA [Fin 1; Fin 2; Fin 4] 3) = Some (Fin 1).
Proof.
  apply (@C3_ema_length_and_seed [Fin 1; Fin 2; Fin 4] 3). discriminate.
Defined.

(** C3 as stated fails on the empty array: the series is seeded with
    [data[0]] unconditionally, so it comes back as [[undefined]], of length
    1 and not 0. *)
Lemma C3_empty_array_counterexample :
  calculateEMA [] 5 = [Undef]
  /\ length (calculateEMA [] 5) <> length (@nil num).
Proof. split; [reflexivity | discriminate]. Qed.

(** ** The degenerate RSI *)

(** C6: for twenty closes all equal to 100.0 and period 14 every difference
    is zero, both smoothed averages are zero, and the [avgLoss === 0] guard
    makes [calculateRSI] return 100 and not 50. *)
Theorem C6_rsi_flat_series :
  rsiAverages (repeat (Fin 100) 20) 14 = (Fin 0, Fin 0)
  /\ calculateRSI (repeat (Fin 100) 20) 14 = Fin 100
  /\ calculateRSI (repeat (Fin 100) 20) 14 <> Fin 50.
Proof.
  split; [| split].
  - vm_compute. reflexivity.
  - vm_compute. reflexivity.
  - vm_compute. discriminate.
Qed.

(** ** The fallback heuristic never answers NEUTRAL *)

(** C10: for every market state, timestamp, random draw and timeframe the
    type [generateOne] returns is BUY, SELL or WAIT, never the NEUTRAL its
    local variable starts from. *)
Theorem C10_fallback_never_neutral
    (data : MarketData) (ts : Z) (random : num) (tf : Timeframe) :
  type (generateOne data ts random tf) <> NEUTRAL
  /\ (type (generateOne data ts random tf) = BUY
      \/ type (generateOne data ts random tf) = SELL
      \/ type (generateOne data ts random tf) = WAIT).
Proof.
  unfold generateOne.
  destruct (gtb (price data) (ema200 data)
            && gtb (price data) (kijun (ichimoku data))
            && (ltb (rsi data) (Fin 45)
                && gtb (histogram (macd data)) (Fin 0)));
    [cbn; split; [discriminate | auto] |].
  destruct (ltb (price data) (ema200 data)
            && ltb (price data) (kijun (ichimoku data))
            && (gtb (rsi data) (Fin 55)
                && ltb (histogram (macd data)) (Fin 0)));
    [cbn; split; [discriminate | auto] |].
  destruct (ltb (adx data) (Fin 20));
    [| cbn; split; [discriminate | auto]].
  destruct (leb (price data) (lower (bollinger data)));
    [cbn; split; [discriminate | auto] |].
  destruct (geb (price data) (upper (bollinger data)));
    cbn; split; (discriminate || auto).
Qed.

(** ** The candle series *)

Lemma updateHistory_amend (init : list Candle) (ls c : Candle) :
  time ls = time c ->
  updateHistory (init ++ [ls]) c = init ++ [c].
Proof.
  intros Ht. unfold updateHistory.
  rewrite get_obj_last, Ht, Z.eqb_refl.
  rewrite length_app. cbn [length].
  replace (length init + 1 - 1)%nat with (length init + 0)%nat by lia.
  rewrite firstn_app_2. cbn [firstn]. now rewrite app_nil_r.
Qed.

Lemma updateHistory_append (stored : list Candle) (c : Candle) :
  ~ same_bucket stored c ->
  updateHistory stored c =
    if (len stored + 1 >? CAPACITY)%Z
    then tl (stored ++ [c]) else stored ++ [c].
Proof.
  intros Hnot. unfold updateHistory.
  rewrite len_app. change (len [c]) with 1%Z.
  destruct (list_last_cases stored) as [-> | [init [ls ->]]].
  - now rewrite get_obj_nil.
  - rewrite get_obj_last.
    destruct (Z.eqb_spec (time ls) (time c)) as [Heq | _]; [| reflexivity].
    exfalso. apply Hnot. now exists init, ls.
Qed.

(** A series within the capacity stays within it. *)
Lemma updateHistory_within_capacity (stored : list Candle) (c : Candle) :
  (len stored <= CAPACITY)%Z -> (len (updateHistory stored c) <= CAPACITY)%Z.
Proof.
  intros Hcap.
  destruct (list_last_cases stored) as [-> | [init [ls Hs]]].
  - vm_compute. discriminate.
  - destruct (Z.eq_dec (time ls) (time c)) as [Ht | Ht].
    + subst stored. rewrite (@updateHistory_amend init ls c Ht).
      rewrite len_app in *. exact Hcap.
    + assert (Hnot : ~ same_bucket stored c).
      { intros [init' [ls' [Heq Ht']]]. subst stored.
        apply app_inj_tail in Heq. destruct Heq as [_ <-]. contradiction. }
      rewrite (@updateHistory_append stored c Hnot).
      destruct (Z.gtb_spec (len stored + 1) CAPACITY) as [Hgt | Hle].
      * subst stored. destruct init as [| o init']; cbn [app tl].
        -- unfold len in *. cbn in *. lia.
        -- unfold len in *. rewrite !length_app in *.
           cbn [length] in *. lia.
      * rewrite len_app. change (len [c]) with 1%Z. lia.
Qed.

(** C5: a tick whose candle has the time of the last stored candle replaces
    that candle and leaves the length unchanged; any other tick appends its
    candle, and when the length then exceeds 300 the first (oldest) candle
    is dropped; so a series of at most 300 candles stays within 300. *)
Theorem C5_append_or_amend (stored : list Candle) (c : Candle) :
  (forall init ls,
      stored = init ++ [ls] -> time ls = time c ->
      updateHistory stored c = init ++ [c]
      /\ length (updateHistory stored c) = length stored)
  /\ (~ same_bucket stored c ->
      ((len stored < CAPACITY)%Z -> updateHistory stored c = stored ++ [c])
      /\ ((len stored >= CAPACITY)%Z ->
          forall oldest rest, stored = oldest :: rest ->
          updateHistory stored c = rest ++ [c]))
  /\ ((len stored <= CAPACITY)%Z ->
      (len (updateHistory stored c) <= CAPACITY)%Z).
Proof.
  split; [| split].
  - intros init ls -> Ht. rewrite (@updateHistory_amend init ls c Ht).
    split; [reflexivity |]. rewrite !length_app. reflexivity.
  - intros Hnot. rewrite (@updateHistory_append stored c Hnot). split.
    + intros Hlt. destruct (Z.gtb_spec (len stored + 1) CAPACITY); [lia |].
      reflexivity.
    + intros Hge oldest rest ->.
      destruct (Z.gtb_spec (len (oldest :: rest) + 1) CAPACITY); [| lia].
      reflexivity.
  - apply updateHistory_within_capacity.
Qed.

Lemma C5_append_or_amend_witness :
  (updateHistory [bar 60000 1; bar 120000 2] (bar 120000 3)
     = [bar 60000 1; bar 120000 3]
   /\ length (updateHistory [bar 60000 1; bar 120000 2] (bar 120000 3))
      = 2%nat)
  /\ (len (updateHistory [bar 60000 1; bar 120000 2] (bar 120000 3))
      <= CAPACITY)%Z.
Proof.
  destruct (C5_append_or_amend [bar 60000 1; bar 120000 2] (bar 120000 3))
    as [Hamend [_ Hcap]].
  split.
  - apply (Hamend [bar 60000 1] (bar 120000 2)); reflexivity.
  - apply Hcap. vm_compute. discriminate.
Defined.

(** ** The snapshot *)

(** After a tick the series ends in the candle of the tick. *)
Lemma updateHistory_ends_in_tick (stored : list Candle) (c : Candle) :
  exists init, updateHistory stored c = init ++ [c].
Proof.
  destruct (list_last_cases stored) as [-> | [init [ls Hs]]].
  - exists []. reflexivity.
  - destruct (Z.eq_dec (time ls) (time c)) as [Ht | Ht].
    + exists init. subst stored. now apply updateHistory_amend.
    + assert (Hnot : ~ same_bucket stored c).
      { intros [init' [ls' [Heq Ht']]]. subst stored.
        apply app_inj_tail in Heq. destruct Heq as [_ <-]. contradiction. }
      rewrite (@updateHistory_append stored c Hnot).
      destruct (len stored + 1 >? CAPACITY)%Z.
      * subst stored. destruct init as [| o init']; cbn [app tl].
        -- now exists [].
        -- now exists (init' ++ [ls]).
      * now exists stored.
Qed.

(** [processIndicators] does not throw on a non-empty series. *)
Lemma processIndicators_total
    (sqrt : num -> num) (init : list Candle) (c : Candle) :
  exists techs, processIndicators sqrt (init ++ [c]) = Some techs.
Proof.
  unfold processIndicators. rewrite get_obj_last. eauto.
Qed.

Lemma get_obj_in_range {A} (l : list A) (i : Z) :
  (0 <= i < len l)%Z -> exists x, get_obj l i = Some x.
Proof.
  intros [H0 Hlt]. unfold get_obj.
  destruct (Z.ltb_spec i 0) as [Hneg | _]; [lia |].
  destruct (nth_error l (Z.to_nat i)) as [x |] eqn:Hnth; [eauto |].
  apply nth_error_None in Hnth. unfold len in Hlt. lia.
Qed.

(** The tick callback always completes. *)
Lemma onTick_total (sqrt : num -> num) (c : Candle) (st : AppState) :
  exists st', onTick sqrt c st = Some st'.
Proof.
  unfold onTick.
  destruct (updateHistory_ends_in_tick (candlesRef st) c) as [init ->].
  destruct (processIndicators_total sqrt init c) as [techs ->].
  destruct (Z.gtb_spec (len (init ++ [c])) 1) as [Hgt | _].
  - destruct (@get_obj_in_range _ (init ++ [c]) (len (init ++ [c]) - 2))
      as [x ->]; [lia |].
    cbn [option_map]. eauto.
  - eauto.
Qed.

(** On finite values [max2] and [min2] are the larger and the smaller of
    their arguments. *)
Lemma max2_Fin (a b : Q) :
  exists m, max2 (Fin a) (Fin b) = Fin m
            /\ a <= m /\ b <= m /\ (m = a \/ m = b).
Proof.
  cbn [max2]. destruct (Qle_bool a b) eqn:Hab.
  - exists b. apply Qle_bool_iff in Hab. repeat split; auto. apply Qle_refl.
  - exists a. repeat split; auto; [apply Qle_refl |].
    apply Qlt_le_weak, Qnot_le_lt. intros Hle.
    apply Qle_bool_iff in Hle. congruence.
Qed.

Lemma min2_Fin (a b : Q) :
  exists m, min2 (Fin a) (Fin b) = Fin m
            /\ m <= a /\ m <= b /\ (m = a \/ m = b).
Proof.
  cbn [min2]. destruct (Qle_bool a b) eqn:Hab.
  - exists a. apply Qle_bool_iff in Hab. repeat split; auto. apply Qle_refl.
  - exists b. repeat split; auto; [| apply Qle_refl].
    apply Qlt_le_weak, Qnot_le_lt. intros Hle.
    apply Qle_bool_iff in Hle. congruence.
Qed.

(** What a tick leaves: the updated series, the running extremes, the
    offset untouched. *)
Lemma onTick_snapshot (sqrt : num -> num) (c : Candle) (st : AppState) :
  exists st',
    onTick sqrt c st = Some st'
    /\ candlesRef st' = updateHistory (candlesRef st) c
    /\ high (marketData st') = max2 (high (marketData st)) (c_high c)
    /\ low (marketData st') = min2 (low (marketData st)) (c_low c)
    /\ priceOffset st' = priceOffset st.
Proof.
  destruct (onTick_total sqrt c st) as [st' Hst'].
  exists st'. split; [exact Hst' |].
  unfold onTick in Hst'.
  destruct (processIndicators sqrt (updateHistory (candlesRef st) c))
    as [techs |]; [| discriminate].
  destruct (if (len (updateHistory (candlesRef st) c) >? 1)%Z
            then option_map c_close
                   (get_obj (updateHistory (candlesRef st) c)
                      (len (updateHistory (candlesRef st) c) - 2))
            else Some (c_open c)) as [prevClose |];
    [| discriminate].
  injection Hst' as <-. repeat split.
Qed.

(** Over a streaming session the snapshot's high and low are the running
    maximum and minimum of the starting snapshot's and of every tick's, and
    the series stays within the capacity. *)
Lemma run_ticks_session (sqrt : num -> num) (ticks : list Candle) :
  forall st,
  exists st',
    run_ticks sqrt ticks st = Some st'
    /\ high (marketData st')
       = fold_left max2 (map c_high ticks) (high (marketData st))
    /\ low (marketData st')
       = fold_left min2 (map c_low ticks) (low (marketData st))
    /\ ((len (candlesRef st) <= CAPACITY)%Z ->
        (len (candlesRef st') <= CAPACITY)%Z).
Proof.
  induction ticks as [| c ticks IH]; intros st; cbn [run_ticks map fold_left].
  - exists st. repeat split. auto.
  - destruct (onTick_snapshot sqrt c st) as [st1 [-> [Hc [Hh [Hl _]]]]].
    destruct (IH st1) as [st' [Hrun [Hh' [Hl' Hcap]]]].
    exists st'. split; [exact Hrun |].
    rewrite Hh', Hl', Hh, Hl. repeat split.
    intros H. apply Hcap. rewrite Hc.
    now apply updateHistory_within_capacity.
Qed.

(** C7: a snapshot built by the tick callback has as [high] the larger of
    the previous snapshot's [high] and the new candle's, and as [low] the
    smaller of the previous [low] and the new candle's; a snapshot built
    from a loaded, non-empty history takes [high] and [low] from its last
    bar alone. *)
Theorem C7_snapshot_high_low (sqrt : num -> num) (st : AppState) :
  (forall newCandle,
      exists st',
        onTick sqrt newCandle st = Some st'
        /\ high (marketData st')
           = max2 (high (marketData st)) (c_high newCandle)
        /\ low (marketData st')
           = min2 (low (marketData st)) (c_low newCandle))
  /\ (forall history init lastCandle,
         history = init ++ [lastCandle] ->
         exists st',
           loadHistory sqrt history st = Some st'
           /\ high (marketData st') = c_high lastCandle
           /\ low (marketData st') = c_low lastCandle).
Proof.
  split.
  - intros newCandle.
    destruct (onTick_snapshot sqrt newCandle st)
      as [st' [Hst' [_ [Hh [Hl _]]]]].
    exists st'. now repeat split.
  - intros history init lastCandle ->.
    unfold loadHistory.
    destruct (Z.gtb_spec (len (init ++ [lastCandle])) 0) as [_ | Hle].
    + rewrite get_obj_last.
      destruct (processIndicators_total sqrt init lastCandle) as [techs ->].
      eexists. split; [reflexivity |]. split; reflexivity.
    + rewrite len_app in Hle. change (len [lastCandle]) with 1%Z in Hle.
      pose proof (len_nonneg init). lia.
Qed.

Lemma C7_snapshot_high_low_witness :
  (exists st',
      onTick (fun x => x) lower_bar session_state = Some st'
      /\ high (marketData st') = Fin 2650
      /\ low (marketData st') = Fin 2644)
  /\ (exists st',
         loadHistory (fun x => x) [bar 60000 2650; lower_bar] session_state
         = Some st'
         /\ high (marketData st') = Fin 2648
         /\ low (marketData st') = Fin 2644).
Proof.
  destruct (C7_snapshot_high_low (fun x => x) session_state)
    as [Htick Hload].
  split.
  - destruct (Htick lower_bar) as [st' [Hs [Hh Hl]]].
    exists st'. split; [exact Hs |]. split; [exact Hh | exact Hl].
  - destruct (Hload [bar 60000 2650; lower_bar] [bar 60000 2650]
                lower_bar eq_refl) as [st' [Hs [Hh Hl]]].
    exists st'. split; [exact Hs |]. split; [exact Hh | exact Hl].
Defined.

(** ** Exact arithmetic on finite values *)

Lemma num_is_Fin (q : Q) : num_is (Fin q) q.
Proof. exists q. split; [reflexivity | apply Qeq_refl]. Qed.

Lemma num_is_fin (q r : Q) : q == r -> num_is (fin q) r.
Proof.
  intros H. exists (Qred q). split; [reflexivity |].
  now rewrite Qred_correct.
Qed.

Lemma num_is_compat (x : num) (q r : Q) : num_is x q -> q == r -> num_is x r.
Proof.
  intros [q' [-> Hq]] Hr. exists q'. split; [reflexivity |].
  now rewrite Hq.
Qed.

Lemma add_is (x y : num) (a b : Q) :
  num_is x a -> num_is y b -> num_is (add x y) (a + b).
Proof.
  intros [a' [-> Ha]] [b' [-> Hb]]. cbn [add].
  apply num_is_fin. now rewrite Ha, Hb.
Qed.

Lemma sub_is (x y : num) (a b : Q) :
  num_is x a -> num_is y b -> num_is (sub x y) (a - b).
Proof.
  intros [a' [-> Ha]] [b' [-> Hb]]. cbn [sub].
  apply num_is_fin. now rewrite Ha, Hb.
Qed.


Lemma mul_is (x y : num) (a b : Q) :
  num_is x a -> num_is y b -> num_is (mul x y) (a * b).
Proof.
  intros [a' [-> Ha]] [b' [-> Hb]]. cbn [mul].
  apply num_is_fin. now rewrite Ha, Hb.
Qed.

Lemma div_is (x y : num) (a b : Q) :
  num_is x a -> num_is y b -> ~ b == 0 -> num_is (div x y) (a / b).
Proof.
  intros [a' [-> Ha]] [b' [-> Hb]] Hnz. cbn [div]. unfold Qzero.
  destruct (Qeq_bool b' 0) eqn:Hz.
  - apply Qeq_bool_iff in Hz. exfalso. apply Hnz. now rewrite <- Hb.
  - apply num_is_fin. now rewrite Ha, Hb.
Qed.

Lemma leb_is (x y : num) (a b : Q) :
  num_is x a -> num_is y b -> (leb x y = true <-> a <= b).
Proof.
  intros [a' [-> Ha]] [b' [-> Hb]]. cbn [leb].
  rewrite Qle_bool_iff, Ha, Hb. reflexivity.
Qed.

Lemma ltb_is (x y : num) (a b : Q) :
  num_is x a -> num_is y b -> (ltb x y = true <-> a < b).
Proof.
  intros [a' [-> Ha]] [b' [-> Hb]]. cbn [ltb].
  rewrite negb_true_iff, <- not_true_iff_false, Qle_bool_iff, Ha, Hb.
  split; [apply Qnot_le_lt | apply Qlt_not_le].
Qed.

(** ** Pivot points *)





(** In binary64 the order needs the range: for the flat bar whose three
    prices are the double nearest to 3000.04, the sum of the three divided
    by 3 is a pivot just below the price, both first levels come out below
    the pivot, and s2 <= s1 and pivot <= r1 fail. *)
Lemma pivots_flat_bar_binary64 :
  let x := Binary64.price_3000_04 in
  let p := Binary64.calculatePivotPoints x x x in
  PrimFloat.ltb (Binary64.pivot64 p) x = true
  /\ PrimFloat.ltb (Binary64.r1_64 p) (Binary64.pivot64 p) = true
  /\ PrimFloat.ltb (Binary64.s1_64 p) (Binary64.s2_64 p) = true
  /\ Binary64.pivots_ordered p = false.
Proof. cbv zeta. repeat split; vm_compute; reflexivity. Qed.

(** A range above zero is not enough either: for the bar whose high is the
    double nearest to 2730.68 and whose low and close are the double just
    below it, r1 comes out below the pivot. *)
Lemma pivots_narrow_bar_binary64 :
  let h := Binary64.price_2730_68 in
  let l := PrimFloat.next_down h in
  let p := Binary64.calculatePivotPoints h l l in
  PrimFloat.ltb l h = true
  /\ PrimFloat.ltb (Binary64.r1_64 p) (Binary64.pivot64 p) = true
  /\ Binary64.pivots_ordered p = false.
Proof. cbv zeta. repeat split; vm_compute; reflexivity. Qed.


(** ** Stochastic oscillator *)

(** The running maximum of finite values, started from a finite value, is
    finite and bounds the start and every value met. *)
Lemma fold_max2_Fin (xs : list num) :
  Forall finite xs ->
  forall a, exists m,
    fold_left max2 xs (Fin a) = Fin m
    /\ a <= m /\ (forall q, In (Fin q) xs -> q <= m).
Proof.
  induction 1 as [| x xs [q ->] _ IH]; intros a; cbn [fold_left].
  - exists a. split; [reflexivity |]. split; [apply Qle_refl |].
    intros q [].
  - destruct (max2_Fin a q) as [m0 [-> [Ha [Hq _]]]].
    destruct (IH m0) as [m [Hm [Hm0 Hall]]].
    exists m. split; [exact Hm |]. split; [now apply Qle_trans with m0 |].
    intros q' [Heq | Hin]; [| now apply Hall].
    injection Heq as <-. now apply Qle_trans with m0.
Qed.

Lemma fold_min2_Fin (xs : list num) :
  Forall finite xs ->
  forall a, exists m,
    fold_left min2 xs (Fin a) = Fin m
    /\ m <= a /\ (forall q, In (Fin q) xs -> m <= q).
Proof.
  induction 1 as [| x xs [q ->] _ IH]; intros a; cbn [fold_left].
  - exists a. split; [reflexivity |]. split; [apply Qle_refl |].
    intros q [].
  - destruct (min2_Fin a q) as [m0 [-> [Ha [Hq _]]]].
    destruct (IH m0) as [m [Hm [Hm0 Hall]]].
    exists m. split; [exact Hm |]. split; [now apply Qle_trans with m0 |].
    intros q' [Heq | Hin]; [| now apply Hall].
    injection Heq as <-. now apply Qle_trans with m0.
Qed.

(** [Math.max] of a non-empty array of finite values is a finite upper
    bound of the array. *)
Lemma Math_max_Fin (xs : list num) :
  xs <> [] -> Forall finite xs ->
  exists m, Math_max xs = Fin m /\ (forall q, In (Fin q) xs -> q <= m).
Proof.
  intros Hne Hfin. destruct xs as [| x xs]; [congruence |].
  inversion Hfin as [| ? ? [q ->] Hrest]; subst.
  unfold Math_max. cbn [fold_left max2].
  destruct (fold_max2_Fin Hrest q) as [m [Hm [Hq Hall]]].
  exists m. split; [exact Hm |].
  intros q' [Heq | Hin]; [| now apply Hall].
  now injection Heq as <-.
Qed.

Lemma Math_min_Fin (xs : list num) :
  xs <> [] -> Forall finite xs ->
  exists m, Math_min xs = Fin m /\ (forall q, In (Fin q) xs -> m <= q).
Proof.
  intros Hne Hfin. destruct xs as [| x xs]; [congruence |].
  inversion Hfin as [| ? ? [q ->] Hrest]; subst.
  unfold Math_min. cbn [fold_left min2].
  destruct (fold_min2_Fin Hrest q) as [m [Hm [Hq Hall]]].
  exists m. split; [exact Hm |].
  intros q' [Heq | Hin]; [| now apply Hall].
  now injection Heq as <-.
Qed.

(** The trailing window [slice(-p)], for [p >= 1], of an array that ends in
    [x] ends in [x] and holds elements of the array only. *)
Lemma slice_from_tail {A} (l : list A) (x : A) (p : Z) :
  (1 <= p)%Z ->
  exists pre,
    slice_from (- p) (l ++ [x]) = pre ++ [x]
    /\ (forall y, In y pre -> In y l).
Proof.
  intros Hp. unfold slice_from, clamp_index.
  destruct (Z.ltb_spec (- p) 0) as [_ | Hge]; [| lia].
  rewrite len_app. change (len [x]) with 1%Z.
  set (k := Z.to_nat (Z.max (len l + 1 + - p) 0)).
  assert (Hk : (k <= length l)%nat) by (unfold k, len; lia).
  exists (skipn k l). split.
  - rewrite skipn_app.
    replace (k - length l)%nat with 0%nat by lia. reflexivity.
  - intros y Hin. rewrite <- (firstn_skipn k l).
    apply in_or_app. now right.
Qed.

Lemma in_0_100_is (x : num) (q : Q) :
  num_is x q -> 0 <= q -> q <= 100 -> in_0_100 x = true.
Proof.
  intros Hx H0 H100. unfold in_0_100. apply andb_true_iff. split.
  - now apply (leb_is (num_is_Fin 0) Hx).
  - now apply (leb_is Hx (num_is_Fin 100)).
Qed.

Lemma finite_window (f : Candle -> num) (init : list Candle)
    (pre : list num) (q : Q) :
  (forall c, In c init -> finite (f c)) ->
  (forall y, In y pre -> In y (map f init)) ->
  Forall finite (pre ++ [Fin q]).
Proof.
  intros Hf Hpre. apply Forall_app. split.
  - apply Forall_forall. intros y Hy.
    apply Hpre, in_map_iff in Hy. destruct Hy as [c [<- Hc]]. now apply Hf.
  - constructor; [now exists q | constructor].
Qed.

(** The ratio of the oscillator lies between 0 and 1. *)
Lemma stochastic_ratio_bounds (cl ll hh : Q) :
  ll <= cl -> cl <= hh -> ~ hh - ll == 0 ->
  0 <= (cl - ll) / (hh - ll) * 100 /\ (cl - ll) / (hh - ll) * 100 <= 100.
Proof.
  intros Hl Hh Hnz.
  assert (Hpos : 0 < hh - ll).
  { destruct (Qlt_le_dec 0 (hh - ll)) as [Hlt | Hle]; [exact Hlt |].
    exfalso. apply Hnz. lra. }
  assert (H0 : 0 <= (cl - ll) / (hh - ll)).
  { apply Qle_shift_div_l; [exact Hpos | lra]. }
  assert (H1 : (cl - ll) / (hh - ll) <= 1).
  { apply Qle_shift_div_r; [exact Hpos | lra]. }
  split; lra.
Qed.

(** C4, amended: for every series of well-formed bars (finite values with
    low <= close <= high in every bar) whose highs and lows are of
    magnitude at most 10^100, and every period >= 1, the [k] and [d] that
    [calculateStochastic] returns for the highs, lows and closes of the
    series lie in the interval [0, 100], and [d] equals [k].  (The bound
    keeps the two differences finite in binary64, where the quotient is
    then at most 1 by monotonicity of the rounded operations; the exact
    arithmetic of the model does not need it.) *)
Theorem C4_stochastic_bounds
    (bars : list Candle) (period : Z)
    (Hbars : Forall well_formed bars)
    (Hmagnitude : Forall (range_within magnitude_bound) bars)
    (Hperiod : (1 <= period)%Z) :
  let s := calculateStochastic (map c_high bars) (map c_low bars)
                               (map c_close bars) period in
  in_0_100 (k s) = true /\ in_0_100 (d s) = true /\ d s = k s.
Proof.
  intros s. clear Hmagnitude.
  assert (Hd : d s = k s).
  { unfold s, calculateStochastic.
    now destruct (len (map c_high bars) <? period)%Z. }
  rewrite Hd.
  assert (Hk : in_0_100 (k s) = true); [| now repeat split].
  unfold s, calculateStochastic.
  destruct (Z.ltb_spec (len (map c_high bars)) period) as [_ | Hlen];
    [reflexivity |].
  destruct (list_last_cases bars) as [-> | [init [lc ->]]].
  { cbn in Hlen. lia. }
  apply Forall_app in Hbars. destruct Hbars as [Hinit Hlc].
  inversion Hlc as [| ? ? [h [l [cl [Hh [Hl [Hcl [Hlcl Hclh]]]]]]] _]; subst.
  rewrite Forall_forall in Hinit.
  rewrite !map_app. cbn [map]. rewrite get_last, Hh, Hl, Hcl.
  destruct (slice_from_tail (map c_high init) (Fin h) Hperiod)
    as [preH [-> HpreH]].
  destruct (slice_from_tail (map c_low init) (Fin l) Hperiod)
    as [preL [-> HpreL]].
  destruct (@Math_max_Fin (preH ++ [Fin h])) as [hh [-> Hmax]].
  { now destruct preH. }
  { apply finite_window with (f := c_high) (init := init); [| exact HpreH].
    intros c Hc. destruct (Hinit c Hc) as [h' [_ [_ [-> _]]]].
    now exists h'. }
  destruct (@Math_min_Fin (preL ++ [Fin l])) as [ll [-> Hmin]].
  { now destruct preL. }
  { apply finite_window with (f := c_low) (init := init); [| exact HpreL].
    intros c Hc. destruct (Hinit c Hc) as [_ [l' [_ [_ [-> _]]]]].
    now exists l'. }
  assert (Hhh : h <= hh) by (apply Hmax, in_or_app; right; now left).
  assert (Hll : ll <= l) by (apply Hmin, in_or_app; right; now left).
  cbn [k]. unfold strict_ne. cbn [strict_eq].
  destruct (Qeq_bool hh ll) eqn:Heq; cbn [negb]; [reflexivity |].
  assert (Hnz : ~ hh - ll == 0).
  { intros Hz. apply Qeq_bool_neq in Heq. apply Heq. lra. }
  destruct (@stochastic_ratio_bounds cl ll hh) as [H0 H100];
    [lra | lra | exact Hnz |].
  apply in_0_100_is with (q := (cl - ll) / (hh - ll) * 100);
    [| exact H0 | exact H100].
  apply mul_is; [| apply num_is_Fin].
  apply div_is; [| | exact Hnz]; apply sub_is; apply num_is_Fin.
Qed.

Lemma well_formed_ohlc (t : Z) (o h l c : Q) :
  l <= c -> c <= h -> well_formed (ohlc t o h l c).
Proof. intros Hl Hh. exists h, l, c. now repeat split. Qed.

Lemma within_Fin (B q : Q) : Qabs q <= B -> within B (Fin q).
Proof. intros H. exists q. now split. Qed.

Lemma C4_stochastic_bounds_witness :
  calculateStochastic (map c_high two_bars) (map c_low two_bars)
                      (map c_close two_bars) 2
  = mkStochastic (Fin (600 # 7)) (Fin (600 # 7))
  /\ in_0_100 (Fin (600 # 7)) = true.
Proof.
  split; [reflexivity |].
  apply (@C4_stochastic_bounds two_bars 2).
  - repeat constructor; apply well_formed_ohlc; discriminate.
  - repeat constructor; apply within_Fin; discriminate.
  - lia.
Defined.

(** C4 as stated fails when the close lies outside the high-low range of
    the window: for highs [[10]], lows [[5]], closes [[20]] and period 1 the
    oscillator is (20 - 5) / (10 - 5) * 100 = 300. *)
Lemma C4_close_above_range_counterexample :
  calculateStochastic [Fin 10] [Fin 5] [Fin 20] 1
  = mkStochastic (Fin 300) (Fin 300)
  /\ in_0_100 (k (calculateStochastic [Fin 10] [Fin 5] [Fin 20] 1)) = false
  /\ in_0_100 (d (calculateStochastic [Fin 10] [Fin 5] [Fin 20] 1)) = false.
Proof. repeat split. Qed.

(** Without any bar the oscillator is not a number either: an empty series
    is not shorter than the period 0, and the window's extremes are the
    infinities [Math.max()] and [Math.min()] return. *)
Lemma stochastic_empty_series_period_0 :
  calculateStochastic [] [] [] 0 = mkStochastic NaN NaN.
Proof. reflexivity. Qed.

(** ** Stop-loss and take-profit of the fallback heuristic *)







(** ** The calibration offset *)

(** The displayed snapshot carries the offset on every price level. *)
Lemma displayData_offsets_every_level (st : AppState) :
  price_levels (displayData st)
  = map (fun x => add x (priceOffset st)) (price_levels (marketData st)).
Proof. reflexivity. Qed.

(** The snapshot handed to the signal generator carries the offset on the
    price, EMA200, the bands, the Ichimoku lines and the pivot levels, and
    leaves high, low and MA50 as the feed gave them. *)
Lemma aiData_offsets (st : AppState) :
  let raw := marketData st in
  let o := priceOffset st in
  price_levels (aiData st)
  = [ add (price raw) o; high raw; low raw; ma50 raw; add (ema200 raw) o;
      add (upper (bollinger raw)) o; add (middle (bollinger raw)) o;
      add (lower (bollinger raw)) o;
      add (tenkan (ichimoku raw)) o; add (kijun (ichimoku raw)) o;
      add (pivot (pivots raw)) o; add (r1 (pivots raw)) o;
      add (s1 (pivots raw)) o; add (r2 (pivots raw)) o;
      add (s2 (pivots raw)) o ].
Proof. reflexivity. Qed.

(** The indicators are computed from the candle series alone: two states
    that differ in the calibration offset only get the same series and the
    same snapshot from a tick and from a history load, and calibrating
    changes neither. *)
Lemma indicators_ignore_offset
    (sqrt : num -> num) (st : AppState) (o1 o2 : num) :
  (forall c,
      option_map marketData (onTick sqrt c (with_offset o1 st))
      = option_map marketData (onTick sqrt c (with_offset o2 st))
      /\ option_map candlesRef (onTick sqrt c (with_offset o1 st))
         = option_map candlesRef (onTick sqrt c (with_offset o2 st)))
  /\ (forall history,
         option_map marketData (loadHistory sqrt history (with_offset o1 st))
         = option_map marketData
             (loadHistory sqrt history (with_offset o2 st)))
  /\ (forall userPrice,
         marketData (handleCalibrate userPrice st) = marketData st
         /\ candlesRef (handleCalibrate userPrice st) = candlesRef st).
Proof.
  split; [| split].
  - intros c. unfold onTick, with_offset. cbn [candlesRef marketData].
    destruct (processIndicators sqrt (updateHistory (candlesRef st) c));
      [| now split].
    destruct (if (len (updateHistory (candlesRef st) c) >? 1)%Z
              then _ else _); now split.
  - intros history. unfold loadHistory, with_offset.
    cbn [candlesRef marketData priceOffset].
    destruct (len history >? 0)%Z; [| reflexivity].
    destruct (get_obj history (len history - 1)); [| reflexivity].
    destruct (processIndicators sqrt history); reflexivity.
  - intros userPrice. unfold handleCalibrate.
    destruct (_ && _); now split.
Qed.

(** C9 at the calibrated session: the offset 10 reaches the high, low and
    MA50 of the displayed snapshot but not those of the snapshot handed to
    the signal generator, whose calibrated price 2660 then lies above its
    own high 2652. *)
Theorem C9_aiData_misses_high_low_ma50 :
  exists st,
    calibrated_session = Some st
    /\ priceOffset st = Fin 10
    /\ (price (displayData st) = Fin 2660
        /\ high (displayData st) = Fin 2662
        /\ low (displayData st) = Fin 2658
        /\ ma50 (displayData st) = Fin 2660)
    /\ (price (aiData st) = Fin 2660
        /\ high (aiData st) = Fin 2652
        /\ low (aiData st) = Fin 2648
        /\ ma50 (aiData st) = Fin 2650)
    /\ gtb (price (aiData st)) (high (aiData st)) = true.
Proof.
  eexists. split; [vm_compute; reflexivity |].
  repeat split.
Qed.


(** ** Scenarios *)

(** Two bars are fewer than 2 x 14: ADX answers its fallback. *)
Example adx_two_bars :
  calculateADX [Fin 10; Fin 10] [Fin 5; Fin 5] [Fin 7; Fin 7] 14 = Fin 20.
Proof. reflexivity. Qed.

(** The pivot levels of the bar high 2655, low 2645, close 2650. *)
Example pivots_single_bar :
  calculatePivotPoints (Fin 2655) (Fin 2645) (Fin 2650)
  = mkPivots (Fin 2650) (Fin 2655) (Fin 2645) (Fin 2660) (Fin 2640).
Proof. reflexivity. Qed.

(** A series that never falls has no losses either, and its RSI is 100 as
    well. *)
Example rsi_rising_series :
  calculateRSI
    (map of_Z [2650; 2651; 2651; 2653; 2654; 2656; 2657; 2657; 2659; 2660;
               2662; 2663; 2665; 2666; 2668; 2669]%Z) 14 = Fin 100.
Proof. reflexivity. Qed.

(** A full buffer of 300 one-minute bars drops its first bar when the bar
    of the next minute arrives. *)
Example eviction_at_capacity :
  let stored := map (fun i => bar (60000 * i) 2650) (range 0 300) in
  let next := bar (60000 * 300) 2651 in
  length stored = 300%nat
  /\ updateHistory stored next = tl stored ++ [next]
  /\ length (updateHistory stored next) = 300%nat.
Proof. vm_compute. repeat split. Qed.

(* ================================================================== *)
(** * Further properties of the indicator library *)
(* ================================================================== *)

(** ** Counting loops and array reads *)

Lemma range_nil (lo hi : Z) : (hi <= lo)%Z -> range lo hi = [].
Proof.
  intros H. unfold range.
  replace (Z.to_nat (hi - lo)) with 0%nat by lia. reflexivity.
Qed.

Lemma range_cons (lo hi : Z) :
  (lo < hi)%Z -> range lo hi = lo :: range (lo + 1) hi.
Proof.
  intros H. unfold range.
  replace (Z.to_nat (hi - lo)) with (S (Z.to_nat (hi - (lo + 1)))) by lia.
  cbn [seq map]. f_equal; [lia |].
  rewrite <- seq_shift, map_map. apply map_ext. intros k. lia.
Qed.

Lemma range_snoc (lo hi : Z) :
  (lo <= hi)%Z -> range lo (hi + 1) = range lo hi ++ [hi].
Proof.
  intros H. unfold range.
  replace (Z.to_nat (hi + 1 - lo)) with (Z.to_nat (hi - lo) + 1)%nat by lia.
  rewrite seq_app, map_app. cbn [seq map]. do 2 f_equal. lia.
Qed.

Lemma in_range (lo hi i : Z) : In i (range lo hi) <-> (lo <= i < hi)%Z.
Proof.
  unfold range. rewrite in_map_iff. split.
  - intros [k [<- Hk]]. apply in_seq in Hk. lia.
  - intros H. exists (Z.to_nat (i - lo)). split; [lia |].
    apply in_seq. lia.
Qed.

(** A loop invariant for a counting loop: what holds before the first
    index and is kept by every step holds after the last. *)
Lemma loop_invariant {S} (P : Z -> S -> Prop) (body : S -> Z -> S)
    (lo hi : Z) (s0 : S) :
  (lo <= hi)%Z ->
  P lo s0 ->
  (forall i s, (lo <= i < hi)%Z -> P i s -> P (i + 1)%Z (body s i)) ->
  P hi (fold_left body (range lo hi) s0).
Proof.
  intros Hle H0 Hstep.
  remember (Z.to_nat (hi - lo)) as n eqn:Hn.
  revert hi Hle Hn Hstep. induction n as [| n IH]; intros hi Hle Hn Hstep.
  - assert (hi = lo) by lia. subst hi. now rewrite range_nil by lia.
  - replace hi with ((hi - 1) + 1)%Z by lia.
    rewrite range_snoc by lia. rewrite fold_left_app. cbn [fold_left].
    apply Hstep; [lia |]. apply IH; [lia | lia |].
    intros i s Hi. apply Hstep. lia.
Qed.

Lemma get_nth (l : list num) (i : Z) :
  (0 <= i < len l)%Z -> In (get l i) l.
Proof.
  intros [H0 Hlt]. unfold get.
  destruct (Z.ltb_spec i 0); [lia |].
  apply nth_In. unfold len in Hlt. lia.
Qed.


Lemma get_finite (l : list num) (i : Z) :
  Forall finite l -> (0 <= i < len l)%Z -> finite (get l i).
Proof.
  intros Hall Hi. rewrite Forall_forall in Hall. now apply Hall, get_nth.
Qed.

(** ** The EMA recurrence *)














Lemma get_Forall (P : num -> Prop) (l : list num) (i : Z) :
  Forall P l -> (0 <= i < len l)%Z -> P (get l i).
Proof.
  intros Hall Hi. rewrite Forall_forall in Hall. now apply Hall, get_nth.
Qed.

Lemma len_map {A B} (f : A -> B) (l : list A) : len (map f l) = len l.
Proof. unfold len. now rewrite length_map. Qed.

Lemma len_range (lo hi : Z) : (lo <= hi)%Z -> len (range lo hi) = (hi - lo)%Z.
Proof. intros H. unfold len. rewrite range_length. lia. Qed.

(** ** MACD *)




(** ** Windows and sums *)



Lemma nonneg_is (x : num) (q : Q) : num_is x q -> 0 <= q -> nonneg x.
Proof. intros [q' [-> Hq]] H. exists q'. split; [reflexivity | now rewrite Hq]. Qed.

Lemma fold_add_nonneg (l : list num) :
  Forall nonneg l -> forall acc, nonneg acc -> nonneg (fold_left add l acc).
Proof.
  induction 1 as [| x l [q [-> Hq]] _ IH]; intros acc [a [-> Ha]];
    cbn [fold_left]; [now exists a |].
  apply IH. apply nonneg_is with (q := a + q); [| lra].
  apply add_is; apply num_is_Fin.
Qed.

Lemma sum_nonneg (l : list num) : Forall nonneg l -> nonneg (JS.sum l).
Proof.
  intros H. apply fold_add_nonneg; [exact H |]. exists 0. split; [reflexivity | lra].
Qed.

Lemma slice_from_incl {A} (start : Z) (l : list A) (x : A) :
  In x (slice_from start l) -> In x l.
Proof.
  unfold slice_from. intros H.
  rewrite <- (firstn_skipn (Z.to_nat (clamp_index (len l) start)) l).
  apply in_or_app. now right.
Qed.

Lemma slice_from_Forall {A} (P : A -> Prop) (start : Z) (l : list A) :
  Forall P l -> Forall P (slice_from start l).
Proof.
  rewrite !Forall_forall. intros H x Hx. eapply H, slice_from_incl, Hx.
Qed.


(** ** SMA *)


(** ** Bollinger Bands *)

Lemma nonneg_num_is (x : num) : nonneg x -> exists q, num_is x q /\ 0 <= q.
Proof. intros [q [-> Hq]]. exists q. split; [apply num_is_Fin | exact Hq]. Qed.


Lemma div_period_nonneg (x : num) (period : Z) :
  (1 <= period)%Z -> nonneg x -> nonneg (div x (of_Z period)).
Proof.
  intros Hp Hx. destruct (nonneg_num_is Hx) as [q [Hq H0]].
  assert (Hpos : 0 < inject_Z period).
  { change 0 with (inject_Z 0). rewrite <- Zlt_Qlt. lia. }
  apply nonneg_is with (q := q / inject_Z period).
  - apply div_is; [exact Hq | apply num_is_Fin | lra].
  - apply Qle_shift_div_l; [exact Hpos | lra].
Qed.




(** ** ATR *)

Lemma trueRange_nonneg (highs lows closes : list num) (i : Z) :
  finite (get highs i) -> finite (get lows i) -> finite (get closes (i - 1)) ->
  nonneg (trueRange highs lows closes i).
Proof.
  intros Hh Hl Hc. unfold trueRange.
  destruct Hh as [h ->], Hl as [l ->], Hc as [c ->].
  destruct (@Math_max_Fin
              [sub (Fin h) (Fin l); Math_abs (sub (Fin h) (Fin c));
               Math_abs (sub (Fin l) (Fin c))]) as [m [-> Hm]].
  - discriminate.
  - repeat constructor; eexists; reflexivity.
  - exists m. split; [reflexivity |].
    apply Qle_trans with (Qred (Qabs (Qred (h - c)))).
    + rewrite Qred_correct. apply Qabs_nonneg.
    + apply Hm. right. left. reflexivity.
Qed.

(** With [period >= 1], more than [period] bars and finite highs, lows and
    closes for every bar, the ATR is a finite number that is not
    negative. *)
Lemma calculateATR_nonneg
    (highs lows closes : list num) (period : Z) :
  (1 <= period)%Z -> (period + 1 <= len highs)%Z ->
  len lows = len highs -> len closes = len highs ->
  Forall finite highs -> Forall finite lows -> Forall finite closes ->
  nonneg (calculateATR highs lows closes period).
Proof.
  intros Hp Hlen Hl Hc Hfh Hfl Hfc. unfold calculateATR.
  destruct (Z.ltb_spec (len highs) (period + 1)) as [Hlt | _]; [lia |].
  apply div_period_nonneg; [exact Hp |]. apply sum_nonneg.
  apply slice_from_Forall. apply Forall_forall. intros x Hx.
  apply in_map_iff in Hx. destruct Hx as [i [<- Hi]].
  apply in_range in Hi.
  apply trueRange_nonneg; apply get_finite; auto; lia.
Qed.

(** ** RSI *)

Lemma diff_finite (prices : list num) (i : Z) :
  Forall finite prices -> (1 <= i < len prices)%Z ->
  finite (sub (get prices i) (get prices (i - 1))).
Proof.
  intros Hfin Hi.
  destruct (@get_finite prices i Hfin ltac:(lia)) as [a ->].
  destruct (@get_finite prices (i - 1) Hfin ltac:(lia)) as [b ->].
  eexists. reflexivity.
Qed.

Lemma abs_nonneg (x : num) : finite x -> nonneg (Math_abs x).
Proof.
  intros [a ->]. apply nonneg_is with (q := Qabs a).
  - now apply num_is_fin.
  - apply Qabs_nonneg.
Qed.

Lemma add_nonneg (x y : num) : nonneg x -> nonneg y -> nonneg (add x y).
Proof.
  intros [a [-> Ha]] [b [-> Hb]]. apply nonneg_is with (q := a + b);
    [apply add_is; apply num_is_Fin | lra].
Qed.

Lemma mul_nonneg (x y : num) : nonneg x -> nonneg y -> nonneg (mul x y).
Proof.
  intros [a [-> Ha]] [b [-> Hb]]. apply nonneg_is with (q := a * b);
    [apply mul_is; apply num_is_Fin | now apply Qmult_le_0_compat].
Qed.

Lemma of_Z_nonneg (z : Z) : (0 <= z)%Z -> nonneg (of_Z z).
Proof.
  intros H. exists (inject_Z z). split; [reflexivity |].
  change 0 with (inject_Z 0). now rewrite <- Zle_Qle.
Qed.

Lemma geb_0_nonneg (x : num) : finite x -> geb x (Fin 0) = true -> nonneg x.
Proof.
  intros [a ->] H. exists a. split; [reflexivity |].
  now apply Qle_bool_iff in H.
Qed.

Lemma gtb_0_nonneg (x : num) : finite x -> gtb x (Fin 0) = true -> nonneg x.
Proof.
  intros [a ->] H. exists a. split; [reflexivity |].
  apply (ltb_is (num_is_Fin 0) (num_is_Fin a)) in H. lra.
Qed.

Lemma zero_nonneg : nonneg (Fin 0).
Proof. exists 0. split; [reflexivity | lra]. Qed.

(** Both smoothed averages are finite and not negative. *)
Lemma rsiAverages_nonneg (prices : list num) (period : Z) :
  (1 <= period)%Z -> (period + 1 <= len prices)%Z ->
  Forall finite prices ->
  nonneg (fst (rsiAverages prices period))
  /\ nonneg (snd (rsiAverages prices period)).
Proof.
  intros Hp Hlen Hfin. unfold rsiAverages.
  set (body1 := fun '(gains, losses) i =>
         let diff := sub (get prices i) (get prices (i - 1)) in
         if geb diff (Fin 0) then (add gains diff, losses)
         else (gains, add losses (Math_abs diff))).
  assert (H1 : nonneg (fst (fold_left body1 (range 1 (period + 1))
                                      (Fin 0, Fin 0)))
               /\ nonneg (snd (fold_left body1 (range 1 (period + 1))
                                         (Fin 0, Fin 0)))).
  { apply (@loop_invariant _
             (fun _ s => nonneg (fst s) /\ nonneg (snd s)) body1);
      [lia | split; apply zero_nonneg |].
    intros i [g l] Hi [Hg Hl]. cbn [fst snd] in *. unfold body1.
    pose proof (@diff_finite prices i Hfin ltac:(lia)) as Hd.
    cbv zeta.
    destruct (geb (sub (get prices i) (get prices (i - 1))) (Fin 0)) eqn:Hge;
      cbn [fst snd]; split; auto.
    - apply add_nonneg; [exact Hg | now apply geb_0_nonneg].
    - apply add_nonneg; [exact Hl | now apply abs_nonneg]. }
  destruct (fold_left body1 (range 1 (period + 1)) (Fin 0, Fin 0))
    as [gains losses].
  cbn [fst snd] in H1. destruct H1 as [Hg Hl].
  set (body2 := fun '(avgGain, avgLoss) i =>
         let diff := sub (get prices i) (get prices (i - 1)) in
         let currentGain := if gtb diff (Fin 0) then diff else Fin 0 in
         let currentLoss :=
           if ltb diff (Fin 0) then Math_abs diff else Fin 0 in
         (div (add (mul avgGain (of_Z (period - 1))) currentGain)
              (of_Z period),
          div (add (mul avgLoss (of_Z (period - 1))) currentLoss)
              (of_Z period))).
  apply (@loop_invariant _
           (fun _ s => nonneg (fst s) /\ nonneg (snd s)) body2);
    [lia | split; now apply div_period_nonneg |].
  intros i [g l] Hi [Hg' Hl']. cbn [fst snd] in *. unfold body2.
  pose proof (@diff_finite prices i Hfin ltac:(lia)) as Hd.
  cbv zeta. cbn [fst snd]. split.
  - apply div_period_nonneg; [exact Hp |]. apply add_nonneg.
    + apply mul_nonneg; [exact Hg' | apply of_Z_nonneg; lia].
    + destruct (gtb (sub (get prices i) (get prices (i - 1))) (Fin 0))
        eqn:Hgt; [now apply gtb_0_nonneg | apply zero_nonneg].
  - apply div_period_nonneg; [exact Hp |]. apply add_nonneg.
    + apply mul_nonneg; [exact Hl' | apply of_Z_nonneg; lia].
    + destruct (ltb (sub (get prices i) (get prices (i - 1))) (Fin 0));
        [now apply abs_nonneg | apply zero_nonneg].
Qed.

Lemma Qabs_nonneg_eq (q : Q) : 0 <= q -> Qabs q = q.
Proof.
  destruct q as [n d]. unfold Qle, Qabs. cbn. intros H.
  f_equal. apply Z.abs_eq. lia.
Qed.

(** Rounding to two decimals keeps a value of the interval [0, 100] in
    it. *)
Lemma toFixed2_in_0_100 (x : num) (q : Q) :
  num_is x q -> 0 <= q -> q <= 100 -> in_0_100 (toFixed2 x) = true.
Proof.
  intros [q' [-> Hq]] H0 H100. rewrite <- Hq in H0, H100.
  unfold toFixed2, round_scaled.
  rewrite (Qabs_nonneg_eq H0).
  destruct (Qle_bool (inject_Z (10 ^ 21)) q') eqn:Hbig.
  { apply Qle_bool_iff in Hbig.
    assert (Hc : 100 < inject_Z (10 ^ 21)) by reflexivity. lra. }
  unfold Qneg. replace (Qle_bool 0 q') with true
    by (symmetry; now apply Qle_bool_iff).
  cbn [negb]. change (inject_Z 100) with 100.
  set (n := Qfloor (q' * 100 + (1 # 2))).
  assert (Hn0 : (0 <= n)%Z).
  { change 0%Z with (Qfloor 0). apply Qfloor_resp_le. lra. }
  assert (Hn1 : (n <= 10000)%Z).
  { change 10000%Z with (Qfloor (100 * 100 + (1 # 2))).
    apply Qfloor_resp_le. lra. }
  apply in_0_100_is with (q := inject_Z n / 100).
  - apply num_is_fin. reflexivity.
  - apply Qle_shift_div_l; [reflexivity |].
    setoid_replace (0 * 100) with (inject_Z 0) by reflexivity.
    now rewrite <- Zle_Qle.
  - apply Qle_shift_div_r; [reflexivity |].
    setoid_replace (100 * 100) with (inject_Z 10000) by reflexivity.
    now rewrite <- Zle_Qle.
Qed.

(** For every period of at least 1 and every array of finite closes, of
    whatever length, the RSI is a finite number between 0 and 100. *)
Lemma calculateRSI_in_0_100 (prices : list num) (period : Z) :
  (1 <= period)%Z -> Forall finite prices ->
  in_0_100 (calculateRSI prices period) = true.
Proof.
  intros Hp Hfin. unfold calculateRSI.
  destruct (Z.ltb_spec (len prices) (period + 1)) as [_ | Hlen];
    [reflexivity |].
  destruct (@rsiAverages_nonneg prices period Hp ltac:(lia) Hfin)
    as [Hg Hl].
  destruct (rsiAverages prices period) as [avgGain avgLoss].
  cbn [fst snd] in Hg, Hl.
  destruct Hg as [g [-> Hg]], Hl as [l [-> Hl]]. cbn [strict_eq].
  destruct (Qeq_bool l 0) eqn:Hz; [reflexivity |].
  apply Qeq_bool_neq in Hz.
  assert (Hlpos : 0 < l).
  { destruct (Qlt_le_dec 0 l) as [H | H]; [exact H |].
    exfalso. apply Hz. lra. }
  assert (Hrs : 0 <= g / l) by (apply Qle_shift_div_l; lra).
  assert (Hden : 0 < 1 + g / l) by lra.
  assert (Hfrac0 : 0 <= 100 / (1 + g / l))
    by (apply Qle_shift_div_l; lra).
  assert (Hfrac1 : 100 / (1 + g / l) <= 100)
    by (apply Qle_shift_div_r; lra).
  apply toFixed2_in_0_100 with (q := 100 - 100 / (1 + g / l)); [| lra | lra].
  apply sub_is; [apply num_is_Fin |].
  apply div_is; [apply num_is_Fin | | lra].
  apply add_is; [apply num_is_Fin |].
  apply div_is; [apply num_is_Fin | apply num_is_Fin | exact Hz].
Qed.

(** ** Ichimoku lines *)

Lemma ltb_irrefl (x : num) : ltb x x = false.
Proof.
  destruct x; cbn [ltb]; try reflexivity.
  apply negb_false_iff, Qle_bool_iff, Qle_refl.
Qed.

(** X10: The scalar Ichimoku never reports INSIDE; with fewer than 9 bars both
    lines are the midpoint of the last bar, and the status is BELOW. *)
Theorem X10_ichimoku_status (highs lows : list num) :
  cloudStatus (calculateIchimoku highs lows) <> INSIDE
  /\ ((len highs < 9)%Z ->
      tenkan (calculateIchimoku highs lows)
      = div (add (get highs (len highs - 1)) (get lows (len lows - 1)))
            (Fin 2)
      /\ kijun (calculateIchimoku highs lows)
         = tenkan (calculateIchimoku highs lows)
      /\ cloudStatus (calculateIchimoku highs lows) = BELOW).
Proof.
  unfold calculateIchimoku. cbn [cloudStatus tenkan kijun]. split.
  - now destruct (gtb _ _).
  - intros Hlen. unfold getAverage.
    destruct (Z.ltb_spec (len highs) 9); [| lia].
    destruct (Z.ltb_spec (len highs) 26); [| lia].
    split; [reflexivity |]. split; [reflexivity |].
    unfold gtb. now rewrite ltb_irrefl.
Qed.

(** ** ADX without directional movement *)

Lemma get_repeat (x : num) (n : nat) (i : Z) :
  (0 <= i < Z.of_nat n)%Z -> get (repeat x n) i = x.
Proof.
  intros Hi. unfold get. destruct (Z.ltb_spec i 0); [lia |].
  apply nth_repeat_lt. lia.
Qed.

Lemma directionalMove_constant (h l : Q) (n : nat) (i : Z) :
  (1 <= i < Z.of_nat n)%Z ->
  directionalMove (repeat (Fin h) n) (repeat (Fin l) n) i = (Fin 0, Fin 0).
Proof.
  intros Hi. unfold directionalMove.
  rewrite !get_repeat by lia.
  assert (Hup : gtb (sub (Fin h) (Fin h)) (Fin 0) = false).
  { apply not_true_iff_false. intros H.
    apply (ltb_is (num_is_Fin 0) (sub_is (num_is_Fin h) (num_is_Fin h))) in H.
    lra. }
  assert (Hdown : gtb (sub (Fin l) (Fin l)) (Fin 0) = false).
  { apply not_true_iff_false. intros H.
    apply (ltb_is (num_is_Fin 0) (sub_is (num_is_Fin l) (num_is_Fin l))) in H.
    lra. }
  rewrite Hup, Hdown, !andb_false_r. reflexivity.
Qed.

Lemma fold_add_finite (l : list num) :
  Forall finite l -> forall acc, finite acc -> finite (fold_left add l acc).
Proof.
  induction 1 as [| x l [q ->] _ IH]; intros acc [a ->]; cbn [fold_left];
    [now exists a |].
  apply IH. eexists. reflexivity.
Qed.

Lemma fold_add_zero (l : list num) :
  Forall (fun x => num_is x 0) l ->
  forall acc, num_is acc 0 -> num_is (fold_left add l acc) 0.
Proof.
  induction 1 as [| x l Hx _ IH]; intros acc Hacc; cbn [fold_left];
    [exact Hacc |].
  apply IH. apply num_is_compat with (q := 0 + 0); [| ring].
  now apply add_is.
Qed.

Lemma In_firstn {A} (n : nat) (l : list A) (x : A) :
  In x (firstn n l) -> In x l.
Proof.
  intros H. rewrite <- (firstn_skipn n l). apply in_or_app. now left.
Qed.

Lemma slice_incl {A} (start stop : Z) (l : list A) (x : A) :
  In x (slice start stop l) -> In x l.
Proof.
  unfold slice. intros H. apply In_firstn in H.
  rewrite <- (firstn_skipn (Z.to_nat (clamp_index (len l) start)) l).
  apply in_or_app. now right.
Qed.

Lemma slice_Forall {A} (P : A -> Prop) (start stop : Z) (l : list A) :
  Forall P l -> Forall P (slice start stop l).
Proof.
  rewrite !Forall_forall. intros H x Hx. eapply H, slice_incl, Hx.
Qed.

Lemma finite_step (s x : num) (period : Z) :
  (1 <= period)%Z -> finite s -> finite x ->
  finite (add (sub s (div s (of_Z period))) x).
Proof.
  intros Hp [a ->] [b ->].
  assert (Hd : num_is (div (Fin a) (of_Z period)) (a / inject_Z period)).
  { apply div_is; [apply num_is_Fin | apply num_is_Fin |].
    unfold Qeq. cbn. lia. }
  destruct (add_is (sub_is (num_is_Fin a) Hd) (num_is_Fin b)) as [q [-> _]].
  now exists q.
Qed.

Lemma zero_step (s x : num) (period : Z) :
  (1 <= period)%Z -> num_is s 0 -> num_is x 0 ->
  num_is (add (sub s (div s (of_Z period))) x) 0.
Proof.
  intros Hp Hs Hx.
  assert (Hnz : ~ inject_Z period == 0) by (unfold Qeq; cbn; lia).
  apply num_is_compat with (q := 0 - 0 / inject_Z period + 0).
  - apply add_is; [| exact Hx].
    apply sub_is; [exact Hs |].
    apply div_is; [exact Hs | apply num_is_Fin | exact Hnz].
  - field. exact Hnz.
Qed.

(** A zero over a finite value, times 100, is zero or not a number. *)
Lemma zero_ratio (z t : num) :
  num_is z 0 -> finite t ->
  mul (div z t) (Fin 100) = NaN \/ num_is (mul (div z t) (Fin 100)) 0.
Proof.
  intros [z' [-> Hz]] [t' ->]. cbn [div]. unfold Qzero.
  destruct (Qeq_bool t' 0) eqn:Ht.
  - left. apply Qeq_bool_iff in Hz. now rewrite Hz.
  - right. apply Qeq_bool_neq in Ht.
    apply num_is_compat with (q := z' / t' * 100).
    + apply mul_is; [| apply num_is_Fin]. now apply num_is_fin.
    + rewrite Hz. field. exact Ht.
Qed.

(** The directional index of two equal lines is not a number. *)
Lemma dx_of_equal_lines (di : num) :
  di = NaN \/ num_is di 0 ->
  toFixed2 (mul (div (Math_abs (sub di di)) (add di di)) (Fin 100)) = NaN.
Proof.
  intros [-> | [z [-> Hz]]]; [reflexivity |].
  assert (H1 : Qeq_bool (Qred (z + z)) 0 = true).
  { apply Qeq_bool_iff. rewrite Qred_correct, Hz. reflexivity. }
  assert (H2 : Qeq_bool (Qred (Qabs (Qred (z - z)))) 0 = true).
  { apply Qeq_bool_iff. rewrite !Qred_correct.
    setoid_replace (z - z) with 0 by ring. reflexivity. }
  unfold sub, add, fin. cbn [Math_abs]. unfold fin. cbn [div].
  unfold Qzero. rewrite H1, H2. reflexivity.
Qed.

Lemma len_repeat {A} (x : A) (n : nat) : len (repeat x n) = Z.of_nat n.
Proof. unfold len. now rewrite repeat_length. Qed.

Lemma nonneg_finite (x : num) : nonneg x -> finite x.
Proof. intros [q [-> _]]. now exists q. Qed.

(** X9: When the highs and the lows never change, no bar has directional
    movement: both directional indicators coincide and the unguarded
    division 0 / 0 makes ADX not a number, whatever the finite closes. *)
Theorem X9_adx_no_movement
    (h l : Q) (closes : list num) (n : nat) (period : Z) :
  (1 <= period)%Z -> (period * 2 <= Z.of_nat n)%Z ->
  length closes = n -> Forall finite closes ->
  calculateADX (repeat (Fin h) n) (repeat (Fin l) n) closes period = NaN.
Proof.
  intros Hp Hn Hlen Hfin. unfold calculateADX.
  rewrite len_repeat.
  destruct (Z.ltb_spec (Z.of_nat n) (period * 2)) as [Hlt | _]; [lia |].
  cbv zeta.
  set (highs := repeat (Fin h) n). set (lows := repeat (Fin l) n).
  set (idx := range 1 (Z.of_nat n)).
  set (trs := map (trueRange highs lows closes) idx).
  assert (Hplus : map (fun i => fst (directionalMove highs lows i)) idx
                  = map (fun _ => Fin 0) idx).
  { apply map_ext_in. intros i Hi. apply in_range in Hi.
    unfold highs, lows. now rewrite directionalMove_constant by lia. }
  assert (Hminus : map (fun i => snd (directionalMove highs lows i)) idx
                   = map (fun _ => Fin 0) idx).
  { apply map_ext_in. intros i Hi. apply in_range in Hi.
    unfold highs, lows. now rewrite directionalMove_constant by lia. }
  rewrite Hplus, Hminus.
  set (zeros := map (fun _ : Z => Fin 0) idx).
  assert (Hidx : len idx = (Z.of_nat n - 1)%Z)
    by (unfold idx; rewrite len_range; lia).
  assert (Htrs_len : len trs = (Z.of_nat n - 1)%Z)
    by (unfold trs; now rewrite len_map).
  assert (Hzeros : Forall (fun x => num_is x 0) zeros).
  { apply Forall_forall. intros x Hx. apply in_map_iff in Hx.
    destruct Hx as [i [<- _]]. apply num_is_Fin. }
  assert (Htrs : Forall finite trs).
  { apply Forall_forall. intros x Hx. apply in_map_iff in Hx.
    destruct Hx as [i [<- Hi]]. apply in_range in Hi.
    apply nonneg_finite, trueRange_nonneg.
    - unfold highs. rewrite get_repeat by lia. now exists h.
    - unfold lows. rewrite get_repeat by lia. now exists l.
    - apply get_finite; [exact Hfin | unfold len; lia]. }
  set (smoothDM :=
         fold_left
           (fun s i => add (sub s (div s (of_Z period))) (get zeros i))
           (range period (len trs)) (JS.sum (slice 0 period zeros))).
  set (smoothTR :=
         fold_left
           (fun s i => add (sub s (div s (of_Z period))) (get trs i))
           (range period (len trs)) (JS.sum (slice 0 period trs))).
  assert (HDM : num_is smoothDM 0).
  { unfold smoothDM.
    apply (@loop_invariant _ (fun _ s => num_is s 0)); [lia | |].
    - apply fold_add_zero; [| apply num_is_Fin].
      now apply slice_Forall.
    - intros i s Hi Hs. apply zero_step; [exact Hp | exact Hs |].
      apply get_Forall with (P := fun x => num_is x 0); [exact Hzeros |].
      unfold zeros. rewrite len_map. lia. }
  assert (HTR : finite smoothTR).
  { unfold smoothTR.
    apply (@loop_invariant _ (fun _ s => finite s)); [lia | |].
    - apply fold_add_finite; [| now exists 0].
      now apply slice_Forall.
    - intros i s Hi Hs. apply finite_step; [exact Hp | exact Hs |].
      apply get_finite; [exact Htrs | lia]. }
  apply dx_of_equal_lines. now apply zero_ratio.
Qed.

Lemma X9_adx_no_movement_witness :
  calculateADX (repeat (Fin 2652) 4) (repeat (Fin 2648) 4)
               [Fin 2650; Fin 2651; Fin 2649; Fin 2650] 2 = NaN.
Proof.
  apply (@X9_adx_no_movement 2652 2648
           [Fin 2650; Fin 2651; Fin 2649; Fin 2650] 4 2).
  - lia.
  - lia.
  - reflexivity.
  - repeat constructor; eexists; reflexivity.
Defined.

(** ** The Ichimoku chart series *)

Lemma getHL2_some (highs lows : list num) (i period : Z) :
  (period - 1 <= i)%Z -> exists v, getHL2 highs lows i period = Some v.
Proof.
  intros H. unfold getHL2. destruct (Z.ltb_spec i (period - 1)); [lia |].
  eauto.
Qed.

Lemma getHL2_none (highs lows : list num) (i period : Z) :
  (i < period - 1)%Z -> getHL2 highs lows i period = None.
Proof.
  intros H. unfold getHL2. now destruct (Z.ltb_spec i (period - 1)); [| lia].
Qed.

(** The loop from index [lo] on: each line gains the times of the bars
    whose window is full. *)
Lemma ichimoku_loop_times (highs lows : list num) (cs : list Candle) :
  forall (lo : Z) (s : IchimokuData),
    (0 <= lo)%Z ->
    let s' := fold_left (ichimokuStep highs lows)
                (combine (range lo (lo + len cs)) cs) s in
    map lp_time (tenkanSeries s')
    = map lp_time (tenkanSeries s) ++ times_from (Z.to_nat (8 - lo)) cs
    /\ map lp_time (kijunSeries s')
       = map lp_time (kijunSeries s) ++ times_from (Z.to_nat (25 - lo)) cs
    /\ map lp_time (spanASeries s')
       = map lp_time (spanASeries s)
         ++ map (fun t => add t (mul (Fin 26) (Fin 60)))
                (times_from (Z.to_nat (25 - lo)) cs)
    /\ map lp_time (spanBSeries s')
       = map lp_time (spanBSeries s)
         ++ map (fun t => add t (mul (Fin 26) (Fin 60)))
                (times_from (Z.to_nat (51 - lo)) cs).
Proof.
  induction cs as [| c cs IH]; intros lo s Hlo.
  - cbv zeta. unfold times_from. rewrite !skipn_nil.
    rewrite range_nil by (unfold len; cbn [length]; lia).
    cbn. now rewrite !app_nil_r.
  - cbv zeta.
    rewrite range_cons by (unfold len; cbn [length]; lia).
    cbn [combine fold_left].
    replace (lo + len (c :: cs))%Z with ((lo + 1) + len cs)%Z
      by (unfold len; cbn [length]; lia).
    destruct (IH (lo + 1)%Z (ichimokuStep highs lows s (lo, c))
                ltac:(lia)) as [H9 [H26 [HA HB]]].
    rewrite H9, H26, HA, HB. clear IH H9 H26 HA HB.
    unfold ichimokuStep, times_from.
    cbn [tenkanSeries kijunSeries spanASeries spanBSeries].
    destruct (Z_lt_le_dec lo 8) as [L8 | G8];
      destruct (Z_lt_le_dec lo 25) as [L25 | G25];
      destruct (Z_lt_le_dec lo 51) as [L51 | G51]; try lia.
    + rewrite !getHL2_none by lia.
      replace (Z.to_nat (8 - lo)) with (S (Z.to_nat (8 - (lo + 1)))) by lia.
      replace (Z.to_nat (25 - lo)) with (S (Z.to_nat (25 - (lo + 1)))) by lia.
      replace (Z.to_nat (51 - lo)) with (S (Z.to_nat (51 - (lo + 1)))) by lia.
      cbn [skipn]. repeat split.
    + destruct (@getHL2_some highs lows lo 9 ltac:(lia)) as [t ->].
      rewrite !getHL2_none by lia.
      replace (Z.to_nat (8 - lo)) with 0%nat by lia.
      replace (Z.to_nat (8 - (lo + 1))) with 0%nat by lia.
      replace (Z.to_nat (25 - lo)) with (S (Z.to_nat (25 - (lo + 1)))) by lia.
      replace (Z.to_nat (51 - lo)) with (S (Z.to_nat (51 - (lo + 1)))) by lia.
      cbn [skipn map lp_time]. rewrite map_app. cbn [map lp_time].
      rewrite <- app_assoc. repeat split.
    + destruct (@getHL2_some highs lows lo 9 ltac:(lia)) as [t ->].
      destruct (@getHL2_some highs lows lo 26 ltac:(lia)) as [k ->].
      rewrite !getHL2_none by lia.
      replace (Z.to_nat (8 - lo)) with 0%nat by lia.
      replace (Z.to_nat (8 - (lo + 1))) with 0%nat by lia.
      replace (Z.to_nat (25 - lo)) with 0%nat by lia.
      replace (Z.to_nat (25 - (lo + 1))) with 0%nat by lia.
      replace (Z.to_nat (51 - lo)) with (S (Z.to_nat (51 - (lo + 1)))) by lia.
      cbn [skipn map lp_time]. rewrite !map_app. cbn [map lp_time].
      rewrite <- !app_assoc. repeat split.
    + destruct (@getHL2_some highs lows lo 9 ltac:(lia)) as [t ->].
      destruct (@getHL2_some highs lows lo 26 ltac:(lia)) as [k ->].
      destruct (@getHL2_some highs lows lo 52 ltac:(lia)) as [b ->].
      replace (Z.to_nat (8 - lo)) with 0%nat by lia.
      replace (Z.to_nat (8 - (lo + 1))) with 0%nat by lia.
      replace (Z.to_nat (25 - lo)) with 0%nat by lia.
      replace (Z.to_nat (25 - (lo + 1))) with 0%nat by lia.
      replace (Z.to_nat (51 - lo)) with 0%nat by lia.
      replace (Z.to_nat (51 - (lo + 1))) with 0%nat by lia.
      cbn [skipn map lp_time]. rewrite !map_app. cbn [map lp_time].
      rewrite <- !app_assoc. repeat split.
Qed.

(** X11: The chart lines of a candle series: Tenkan has a point for every bar
    from the 9th on and Kijun for every bar from the 26th on, each at the
    bar's time in seconds; Span A has a point for every Kijun point and
    Span B for every bar from the 52nd on, each 26 x 60 seconds after the
    bar's time. *)
Theorem X11_ichimoku_chart_times (candles : list Candle) :
  let shift := fun t => add t (mul (Fin 26) (Fin 60)) in
  let d := generateIchimokuData candles in
  map lp_time (tenkanSeries d) = times_from 8 candles
  /\ map lp_time (kijunSeries d) = times_from 25 candles
  /\ map lp_time (spanASeries d) = map shift (times_from 25 candles)
  /\ map lp_time (spanBSeries d) = map shift (times_from 51 candles).
Proof.
  cbv zeta. unfold generateIchimokuData.
  pose proof (@ichimoku_loop_times (map c_high candles) (map c_low candles)
                candles 0 (mkIchimokuData [] [] [] []) ltac:(lia)) as H.
  cbv zeta in H. cbn [Z.add] in H. exact H.
Qed.

Lemma combine_snoc {A B} (l1 : list A) (l2 : list B) (x : A) (y : B) :
  length l1 = length l2 ->
  combine (l1 ++ [x]) (l2 ++ [y]) = combine l1 l2 ++ [(x, y)].
Proof.
  revert l2. induction l1 as [| a l1 IH]; intros [| b l2] H;
    cbn in H; try discriminate; [reflexivity |].
  cbn. f_equal. apply IH. lia.
Qed.

(** The window [slice(n - p, n)] of the last [p] elements is the window
    [slice(-p)]. *)
Lemma slice_last_window {A} (l : list A) (p : Z) :
  (1 <= p <= len l)%Z ->
  slice (len l - 1 - p + 1) (len l - 1 + 1) l = slice_from (- p) l.
Proof.
  intros Hp. unfold slice, slice_from, clamp_index.
  destruct (Z.ltb_spec (len l - 1 - p + 1) 0); [lia |].
  destruct (Z.ltb_spec (len l - 1 + 1) 0); [lia |].
  destruct (Z.ltb_spec (- p) 0); [| lia].
  replace (Z.min (len l - 1 - p + 1) (len l)) with (len l - p)%Z by lia.
  replace (Z.min (len l - 1 + 1) (len l)) with (len l) by lia.
  replace (Z.max (len l + - p) 0) with (len l - p)%Z by lia.
  apply firstn_all2. rewrite length_skipn. unfold len in *. lia.
Qed.

(** At the last bar [getHL2] is the average the scalar Ichimoku takes. *)
Lemma getHL2_last (highs lows : list num) (period : Z) :
  (1 <= period <= len highs)%Z -> len lows = len highs ->
  getHL2 highs lows (len highs - 1) period
  = Some (getAverage highs lows period).
Proof.
  intros Hp Hl. unfold getHL2, getAverage.
  destruct (Z.ltb_spec (len highs - 1) (period - 1)); [lia |].
  destruct (Z.ltb_spec (len highs) period); [lia |].
  rewrite (slice_last_window highs) by lia.
  rewrite <- Hl. rewrite (slice_last_window lows) by lia.
  reflexivity.
Qed.

(** X12: From 26 bars on, the last Tenkan and Kijun points of the chart stand at
    the last bar's time and carry the values [calculateIchimoku] reports
    for the same bars. *)
Theorem X12_ichimoku_chart_last_points
    (init : list Candle) (c : Candle) :
  let candles := init ++ [c] in
  let snapshot :=
    calculateIchimoku (map c_high candles) (map c_low candles) in
  let time := div (of_Z (time c)) (Fin 1000) in
  (26 <= len candles)%Z ->
  exists ts ks,
    tenkanSeries (generateIchimokuData candles)
    = ts ++ [mkLinePoint time (tenkan snapshot)]
    /\ kijunSeries (generateIchimokuData candles)
       = ks ++ [mkLinePoint time (kijun snapshot)].
Proof.
  cbv zeta. intros Hlen. unfold generateIchimokuData.
  rewrite len_app. change (len [c]) with 1%Z.
  rewrite range_snoc by apply len_nonneg.
  rewrite combine_snoc by (rewrite range_length; unfold len; lia).
  rewrite fold_left_app. cbn [fold_left].
  set (s := fold_left _ _ _).
  set (highs := map c_high (init ++ [c])).
  set (lows := map c_low (init ++ [c])).
  assert (Hh : len highs = (len init + 1)%Z).
  { unfold highs. rewrite len_map, len_app. reflexivity. }
  assert (Hl : len lows = len highs).
  { unfold lows, highs. now rewrite !len_map. }
  rewrite len_app in Hlen. change (len [c]) with 1%Z in Hlen.
  unfold ichimokuStep.
  replace (len init) with (len highs - 1)%Z by lia.
  rewrite (@getHL2_last highs lows 9) by lia.
  rewrite (@getHL2_last highs lows 26) by lia.
  cbn [tenkanSeries kijunSeries].
  exists (tenkanSeries s), (kijunSeries s). split; reflexivity.
Qed.

(* ================================================================== *)
(** * Properties of the market-data service and of the session *)
(* ================================================================== *)

(** ** Candles built from quotes *)


Lemma twelveInitialCandle_consistent (now : Z) (p : Q) :
  ohlc_consistent (twelveInitialCandle now (Fin p)).
Proof. exists p, p, p, p. cbn. repeat split; apply Qle_refl. Qed.

(** A quote keeps the bar consistent, and the bar's time never goes back:
    it stays, or moves forward to the minute of the quote. *)
Lemma twelveOnPrice_step (price : num) (now : Z) (cur : Candle) :
  ohlc_consistent cur -> finite price ->
  ohlc_consistent (twelveOnPrice price now cur)
  /\ (time cur <= time (twelveOnPrice price now cur))%Z
  /\ c_close (twelveOnPrice price now cur) = price.
Proof.
  intros [o [h [l [cl [Ho [Hh [Hl [Hc [H1 [H2 [H3 H4]]]]]]]]]]] [p ->].
  unfold twelveOnPrice.
  destruct (Z.gtb_spec (minuteStart now) (time cur)) as [Hgt | Hle];
    cbn [time c_open c_high c_low c_close c_volume].
  - split; [| split; [lia | reflexivity]].
    destruct (max2_Fin p p) as [m [Hm [Hm1 [_ Hm2]]]].
    destruct (min2_Fin p p) as [n [Hn [Hn1 [_ Hn2]]]].
    exists p, m, n, p. cbn [c_open c_high c_low c_close].
    rewrite Hm, Hn. repeat split; auto.
  - split; [| split; [lia | reflexivity]].
    rewrite Ho, Hh, Hl.
    destruct (max2_Fin h p) as [m [Hm [Hm1 [Hm2 _]]]].
    destruct (min2_Fin l p) as [n [Hn [Hn1 [Hn2 _]]]].
    exists o, m, n, p. cbn [c_open c_high c_low c_close].
    rewrite Hm, Hn. repeat split; auto; lra.
Qed.

(** Every candle a stream of finite quotes produces is consistent, and
    the candles' times never decrease. *)
Lemma twelveUpdates_stream (events : list (num * Z)) :
  forall cur,
    ohlc_consistent cur ->
    Forall (fun e => finite (fst e)) events ->
    Forall ohlc_consistent (twelveUpdates events cur)
    /\ Forall (fun c => (time cur <= time c)%Z) (twelveUpdates events cur)
    /\ StronglySorted Z.le (map time (twelveUpdates events cur)).
Proof.
  induction events as [| [price now] events IH]; intros cur Hcur Hall;
    cbn [twelveUpdates].
  - repeat split; constructor.
  - inversion Hall as [| ? ? Hp Hrest]; subst. cbn [fst] in Hp.
    destruct (twelveOnPrice_step now Hcur Hp) as [Hc [Ht _]].
    destruct (IH _ Hc Hrest) as [H1 [H2 H3]].
    split; [now constructor |]. split.
    + constructor; [exact Ht |].
      eapply Forall_impl; [| exact H2]. cbv beta. intros c Hle. lia.
    + cbn [map]. constructor; [exact H3 |].
      rewrite Forall_map. exact H2.
Qed.

(** ** Time order of the candle series *)

Lemma sorted_app (l1 l2 : list Z) :
  StronglySorted Z.lt (l1 ++ l2) <->
  StronglySorted Z.lt l1 /\ StronglySorted Z.lt l2
  /\ (forall x y, In x l1 -> In y l2 -> (x < y)%Z).
Proof.
  induction l1 as [| a l1 IH]; cbn [app].
  - split; [intros H; repeat split; [constructor | exact H | intros ? ? []]
           | intros [_ [H _]]; exact H].
  - split.
    + intros H. inversion H as [| ? ? Hs Hall]; subst.
      apply IH in Hs. destruct Hs as [H1 [H2 H3]].
      rewrite Forall_app in Hall. destruct Hall as [Ha1 Ha2].
      split; [now constructor |]. split; [exact H2 |].
      intros x y [<- | Hx] Hy; [| now apply H3].
      rewrite Forall_forall in Ha2. now apply Ha2.
    + intros [H1 [H2 H3]]. inversion H1 as [| ? ? Hs Hall]; subst.
      constructor.
      * apply IH. split; [exact Hs |]. split; [exact H2 |].
        intros x y Hx Hy. apply H3; [now right | exact Hy].
      * apply Forall_app. split; [exact Hall |].
        apply Forall_forall. intros y Hy. apply H3; [now left | exact Hy].
Qed.

(** A tick no older than the last stored bar keeps the times of the series
    strictly increasing, and the series then holds bars of the old series
    and the tick's candle only. *)
Lemma updateHistory_order (stored : list Candle) (c : Candle) :
  StronglySorted Z.lt (times stored) ->
  (forall x, In x (times stored) -> (x <= time c)%Z) ->
  StronglySorted Z.lt (times (updateHistory stored c))
  /\ (forall x, In x (updateHistory stored c) -> x = c \/ In x stored).
Proof.
  intros Hs Hle.
  destruct (list_last_cases stored) as [-> | [init [ls Heq]]].
  - cbn. split; [repeat constructor | intros x [<- | []]; now left].
  - destruct (Z.eq_dec (time ls) (time c)) as [Ht | Ht].
    + subst stored. rewrite (@updateHistory_amend init ls c Ht). split.
      * unfold times in *. rewrite map_app in *. cbn [map] in *.
        now rewrite <- Ht.
      * intros x Hx. apply in_app_or in Hx. destruct Hx as [Hx | [<- | []]];
          [right; apply in_or_app; now left | now left].
    + assert (Hnot : ~ same_bucket stored c).
      { intros [init' [ls' [Heq' Ht']]]. subst stored.
        apply app_inj_tail in Heq'. destruct Heq' as [_ <-]. contradiction. }
      rewrite (@updateHistory_append stored c Hnot).
      assert (Hall : StronglySorted Z.lt (times (stored ++ [c]))).
      { unfold times in *. rewrite map_app. cbn [map]. apply sorted_app.
        split; [exact Hs |]. split; [repeat constructor |].
        intros x y Hx [<- | []].
        assert (Hls : In (time ls) (map time stored)).
        { subst stored. rewrite map_app. apply in_or_app. right. now left. }
        destruct (Z.eq_dec x (time ls)) as [-> | Hne].
        - specialize (Hle _ Hls). lia.
        - subst stored. rewrite map_app in Hs, Hx. cbn [map] in Hs, Hx.
          apply sorted_app in Hs. destruct Hs as [_ [_ H3]].
          apply in_app_or in Hx. destruct Hx as [Hx | [Hx | []]];
            [| congruence].
          specialize (H3 x (time ls) Hx (or_introl eq_refl)).
          specialize (Hle _ Hls). lia. }
      destruct (len stored + 1 >? CAPACITY)%Z.
      * split.
        -- destruct stored as [| o rest]; cbn [app tl] in *; [constructor |].
           unfold times in *. cbn [map] in Hall. now inversion Hall.
        -- intros x Hx. destruct stored as [| o rest]; cbn [app tl] in Hx.
           ++ destruct Hx.
           ++ apply in_app_or in Hx. destruct Hx as [Hx | [<- | []]];
                [right; now right | now left].
      * split; [exact Hall |].
        intros x Hx. apply in_app_or in Hx.
        destruct Hx as [Hx | [<- | []]]; [now right | now left].
Qed.

(** Over a session whose ticks come in time order and are no older than the
    stored bars, the tick callback keeps the times of the series strictly
    increasing, and the series holds stored bars and tick candles only. *)
Lemma run_ticks_order (sqrt : num -> num) (ticks : list Candle) :
  forall st,
    StronglySorted Z.lt (times (candlesRef st)) ->
    StronglySorted Z.le (times ticks) ->
    (forall x y, In x (times (candlesRef st)) -> In y (times ticks) ->
                 (x <= y)%Z) ->
    exists st',
      run_ticks sqrt ticks st = Some st'
      /\ StronglySorted Z.lt (times (candlesRef st'))
      /\ (forall c, In c (candlesRef st') ->
                    In c ticks \/ In c (candlesRef st)).
Proof.
  induction ticks as [| c ticks IH]; intros st Hs Ht Hle; cbn [run_ticks].
  - exists st. split; [reflexivity |]. split; [exact Hs | auto].
  - destruct (onTick_snapshot sqrt c st) as [st1 [-> [Hc _]]].
    unfold times in Ht. cbn [map] in Ht.
    inversion Ht as [| ? ? Ht' Hall]; subst.
    destruct (@updateHistory_order (candlesRef st) c Hs) as [Hs1 Hin1].
    { intros x Hx. apply (Hle x (time c) Hx). now left. }
    rewrite <- Hc in Hs1, Hin1.
    destruct (IH st1 Hs1 Ht') as [st' [Hrun [Hs' Hin']]].
    { intros x y Hx Hy. unfold times in Hx. apply in_map_iff in Hx.
      destruct Hx as [b [<- Hb]]. destruct (Hin1 b Hb) as [-> | Hb'].
      - rewrite Forall_forall in Hall. now apply Hall.
      - apply Hle; [now apply in_map | now right]. }
    exists st'. split; [exact Hrun |]. split; [exact Hs' |].
    intros b Hb. destruct (Hin' b Hb) as [H | H]; [left; now right |].
    destruct (Hin1 b H) as [-> | H']; [left; now left | now right].
Qed.

(** X15: A session fed by the Twelve Data socket from an empty series: whatever
    the finite quotes and the clock readings, the tick callback always
    completes, the series has strictly increasing times, at most 300 bars,
    and every bar keeps its open and close between its low and high. *)
Theorem X15_twelve_data_session
    (sqrt : num -> num) (now0 : Z) (p0 : Q) (events : list (num * Z))
    (st : AppState) :
  candlesRef st = [] ->
  Forall (fun e => finite (fst e)) events ->
  exists st',
    run_ticks sqrt (twelveUpdates events (twelveInitialCandle now0 (Fin p0)))
              st = Some st'
    /\ StronglySorted Z.lt (times (candlesRef st'))
    /\ (len (candlesRef st') <= CAPACITY)%Z
    /\ Forall ohlc_consistent (candlesRef st').
Proof.
  intros Hempty Hfin.
  destruct (@twelveUpdates_stream events (twelveInitialCandle now0 (Fin p0))
              (twelveInitialCandle_consistent now0 p0) Hfin)
    as [Hcons [_ Hsorted]].
  set (ticks := twelveUpdates events (twelveInitialCandle now0 (Fin p0))) in *.
  destruct (@run_ticks_order sqrt ticks st) as [st' [Hrun [Hs Hin]]].
  - rewrite Hempty. constructor.
  - exact Hsorted.
  - rewrite Hempty. intros x y [].
  - exists st'. split; [exact Hrun |]. split; [exact Hs |].
    destruct (run_ticks_session sqrt ticks st) as [st2 [Hrun2 [_ [_ Hcap]]]].
    rewrite Hrun in Hrun2. injection Hrun2 as <-.
    split; [apply Hcap; rewrite Hempty; vm_compute; discriminate |].
    apply Forall_forall. intros c Hc.
    destruct (Hin c Hc) as [H | H]; [| rewrite Hempty in H; destruct H].
    rewrite Forall_forall in Hcons. now apply Hcons.
Qed.

(** ** The simulated history *)

Lemma countdown_nil (hi : Z) : (hi <= 0)%Z -> countdown hi = [].
Proof.
  intros H. unfold countdown.
  replace (Z.to_nat hi) with 0%nat by lia. reflexivity.
Qed.

Lemma countdown_cons (hi : Z) :
  (0 < hi)%Z -> countdown hi = hi :: countdown (hi - 1).
Proof.
  intros H. unfold countdown.
  replace (Z.to_nat hi) with (S (Z.to_nat (hi - 1))) by lia.
  cbn [seq map]. f_equal; [lia |].
  rewrite <- seq_shift, map_map. apply map_ext. intros k. lia.
Qed.

Lemma in_countdown (hi i : Z) : In i (countdown hi) <-> (1 <= i <= hi)%Z.
Proof.
  unfold countdown. rewrite in_map_iff. split.
  - intros [k [<- Hk]]. apply in_seq in Hk. lia.
  - intros H. exists (Z.to_nat (hi - i)). split; [lia |].
    apply in_seq. lia.
Qed.

Lemma num_is_finite (x : num) (q : Q) : num_is x q -> finite x.
Proof. intros [q' [-> _]]. now exists q'. Qed.

(** One bar of the simulation is consistent and opens at the running
    price. *)
Lemma mockStep_bar (endTimestamp : Z) (random : nat -> num)
    (cs : list Candle) (p : Q) (calls : nat) (i : Z) :
  (forall j, unit_interval (random j)) ->
  exists bar close,
    mockStep endTimestamp random (cs, Fin p, calls) i
    = (cs ++ [bar], Fin close, (calls + 4)%nat)
    /\ ohlc_consistent bar
    /\ time bar = (endTimestamp - i * 60000)%Z
    /\ c_open bar = Fin p /\ c_close bar = Fin close.
Proof.
  intros Hrnd. unfold mockStep.
  destruct (Hrnd calls) as [r0 [-> [_ _]]].
  destruct (Hrnd (calls + 1)%nat) as [r1 [-> [Hr1 _]]].
  destruct (Hrnd (calls + 2)%nat) as [r2 [-> [Hr2 _]]].
  destruct (Hrnd (calls + 3)%nat) as [r3 [-> _]].
  set (close := add (Fin p) (mul (sub (Fin r0) (Fin (1 # 2))) (Fin (3 # 2)))).
  assert (Hclose : exists c, close = Fin c) by (eexists; reflexivity).
  destruct Hclose as [c Hc]. rewrite Hc.
  unfold Math_max, Math_min. cbn [fold_left].
  change (max2 NInf (Fin p)) with (Fin p).
  change (min2 PInf (Fin p)) with (Fin p).
  destruct (max2_Fin p c) as [m [-> [Hm1 [Hm2 _]]]].
  destruct (min2_Fin p c) as [n [-> [Hn1 [Hn2 _]]]].
  destruct (add_is (num_is_Fin m)
              (mul_is (num_is_Fin r1) (num_is_Fin (1 # 2))))
    as [h [Hh Hhq]].
  destruct (sub_is (num_is_Fin n)
              (mul_is (num_is_Fin r2) (num_is_Fin (1 # 2))))
    as [l [Hl Hlq]].
  rewrite Hh, Hl.
  eexists. exists c. split; [reflexivity |].
  cbn [time c_open c_close]. split; [| repeat split].
  exists p, h, l, c. cbn [c_open c_high c_low c_close].
  repeat split; lra.
Qed.

Lemma mock_loop (endTimestamp : Z) (random : nat -> num) :
  (forall j, unit_interval (random j)) ->
  forall (n : nat) (cs : list Candle) (p : Q) (calls : nat),
  exists new,
    fst (fst (fold_left (mockStep endTimestamp random)
                        (countdown (Z.of_nat n)) (cs, Fin p, calls)))
    = cs ++ new
    /\ length new = n
    /\ Forall ohlc_consistent new
    /\ times new
       = map (fun i => (endTimestamp - i * 60000)%Z) (countdown (Z.of_nat n))
    /\ contiguous (Fin p) new.
Proof.
  intros Hrnd. induction n as [| n IH]; intros cs p calls.
  - exists []. cbn. rewrite app_nil_r. repeat split. constructor.
  - rewrite countdown_cons by lia.
    replace (Z.of_nat (S n) - 1)%Z with (Z.of_nat n) by lia.
    cbn [fold_left].
    destruct (@mockStep_bar endTimestamp random cs p calls
                (Z.of_nat (S n)) Hrnd)
      as [bar [close [-> [Hbar [Htime [Hopen Hclose]]]]]].
    destruct (IH (cs ++ [bar]) close (calls + 4)%nat)
      as [new [Heq [Hlen [Hall [Htimes Hcont]]]]].
    exists (bar :: new). rewrite Heq, <- app_assoc.
    split; [reflexivity |]. split; [cbn; lia |].
    split; [now constructor |]. split.
    + unfold times in *. cbn [map]. now rewrite Htime, Htimes.
    + cbn [contiguous]. rewrite Hclose. auto.
Qed.

Lemma countdown_times_sorted (e hi : Z) :
  StronglySorted Z.lt (map (fun i => (e - i * 60000)%Z) (countdown hi)).
Proof.
  remember (Z.to_nat hi) as n eqn:Hn. revert hi Hn.
  induction n as [| n IH]; intros hi Hn.
  - rewrite countdown_nil by lia. constructor.
  - rewrite countdown_cons by lia. cbn [map]. constructor.
    + apply IH. lia.
    + apply Forall_forall. intros x Hx. apply in_map_iff in Hx.
      destruct Hx as [i [<- Hi]]. apply in_countdown in Hi. lia.
Qed.

(** X16: The simulated history has [limit] bars (none for a negative limit),
    one per minute in increasing time up to the minute before the current
    one; every bar keeps its open and close between its low and high, the
    first opens at 2650 and each next one where the previous closed. *)
Theorem X16_mock_history_bars
    (limit now : Z) (random : nat -> num) :
  (forall j, unit_interval (random j)) ->
  let history := generateMockHistory limit now random in
  len history = Z.max 0 limit
  /\ Forall ohlc_consistent history
  /\ times history
     = map (fun i => (minuteStart now - i * 60000)%Z) (countdown limit)
  /\ StronglySorted Z.lt (times history)
  /\ contiguous (Fin 2650) history.
Proof.
  intros Hrnd history. unfold history, generateMockHistory.
  destruct (Z_le_gt_dec limit 0) as [Hle | Hgt].
  - rewrite countdown_nil by lia. cbn.
    split; [lia |]. repeat split; constructor.
  - destruct (@mock_loop (minuteStart now) random Hrnd (Z.to_nat limit)
                [] 2650 0%nat) as [new [Heq [Hlen [Hall [Htimes Hcont]]]]].
    rewrite Z2Nat.id in Heq, Htimes by lia.
    cbn [app] in Heq. rewrite Heq.
    split; [unfold len; lia |]. split; [exact Hall |].
    split; [exact Htimes |]. split; [| exact Hcont].
    rewrite Htimes. apply countdown_times_sorted.
Qed.

(** ** Provider selection *)

(** X17: No call of [configureMarketService] clears a key once stored: with a
    key in place every later configuration keeps a non-empty key, selecting
    TWELVEDATA picks Twelve Data whatever the key argument, and selecting
    BINANCE never does. *)
Theorem X17_configure_keeps_key
    (calls : list (DataSource * option String.string))
    (cfg : ServiceConfig) :
  truthy_string (Some (twelveDataApiKey cfg)) = true ->
  let cfg' :=
    fold_left (fun c call => configureMarketService (fst call) (snd call) c)
              calls cfg in
  truthy_string (Some (twelveDataApiKey cfg')) = true
  /\ (forall apiKey,
         usesTwelveData (configureMarketService TWELVEDATA apiKey cfg')
         = true)
  /\ (forall apiKey,
         usesTwelveData (configureMarketService BINANCE apiKey cfg')
         = false).
Proof.
  revert cfg. induction calls as [| [source key] calls IH]; intros cfg Hkey;
    cbn [fold_left fst snd].
  - split; [exact Hkey |]. split; [| reflexivity].
    intros [k |]; unfold usesTwelveData, configureMarketService;
      cbn [currentDataSource twelveDataApiKey]; [| exact Hkey].
    destruct (truthy_string (Some k)) eqn:Hk; [exact Hk | exact Hkey].
  - apply IH. unfold configureMarketService. cbn [twelveDataApiKey].
    destruct key as [k |]; [| exact Hkey].
    destruct (truthy_string (Some k)) eqn:Hk; [exact Hk | exact Hkey].
Qed.

Lemma X17_configure_keeps_key_witness :
  usesTwelveData
    (configureMarketService TWELVEDATA (Some ""%string)
       (fold_left
          (fun c call => configureMarketService (fst call) (snd call) c)
          [(BINANCE, None); (TWELVEDATA, Some ""%string)]
          (configureMarketService TWELVEDATA (Some key_12) initialConfig)))
  = true.
Proof.
  apply (@X17_configure_keeps_key
           [(BINANCE, None); (TWELVEDATA, Some ""%string)]
           (configureMarketService TWELVEDATA (Some key_12) initialConfig)).
  reflexivity.
Defined.

(** ** More on the fallback heuristic *)

(** The cascade reads the market state only: type and base confidence are
    the same for every timeframe, timestamp and random draw, and so are the
    entry price and, within the same ATR multiplier, the two levels. *)
Lemma generateOne_cascade (data : MarketData) :
  exists ty base,
    In (ty, base) cascade_outcomes
    /\ forall ts random tf,
         type (generateOne data ts random tf) = ty
         /\ confidence (generateOne data ts random tf)
            = Math_floor (add (Fin base) (mul random (Fin 5)))
         /\ entryPrice (generateOne data ts random tf) = price data
         /\ stopLoss (generateOne data ts random tf)
            = toFixed2
                (add (price data)
                   (if SignalType_eqb ty BUY
                    then neg (mul (atr data)
                                  (if Timeframe_eqb tf M1
                                   then Fin (3 # 2) else Fin 2))
                    else mul (atr data)
                             (if Timeframe_eqb tf M1
                              then Fin (3 # 2) else Fin 2)))
         /\ takeProfit (generateOne data ts random tf)
            = toFixed2
                (add (price data)
                   (if SignalType_eqb ty BUY
                    then mul (mul (atr data)
                                  (if Timeframe_eqb tf M1
                                   then Fin (3 # 2) else Fin 2)) (Fin 2)
                    else neg (mul (mul (atr data)
                                       (if Timeframe_eqb tf M1
                                        then Fin (3 # 2) else Fin 2))
                                  (Fin 2)))).
Proof.
  unfold generateOne, cascade_outcomes.
  destruct (gtb (price data) (ema200 data)
            && gtb (price data) (kijun (ichimoku data))
            && (ltb (rsi data) (Fin 45)
                && gtb (histogram (macd data)) (Fin 0))).
  { exists BUY, 80. split; [cbn; auto |]. intros; repeat split. }
  destruct (ltb (price data) (ema200 data)
            && ltb (price data) (kijun (ichimoku data))
            && (gtb (rsi data) (Fin 55)
                && ltb (histogram (macd data)) (Fin 0))).
  { exists SELL, 80. split; [cbn; auto |]. intros; repeat split. }
  destruct (ltb (adx data) (Fin 20)).
  - destruct (leb (price data) (lower (bollinger data))).
    { exists BUY, 65. split; [cbn; auto |]. intros; repeat split. }
    destruct (geb (price data) (upper (bollinger data))).
    { exists SELL, 65. split; [cbn; auto 6 |]. intros; repeat split. }
    exists WAIT, 50. split; [cbn; auto 6 |]. intros; repeat split.
  - exists WAIT, 50. split; [cbn; auto 6 |]. intros; repeat split.
Qed.

(** X18: The three signals of a simulated batch agree on the type and the entry
    price, and M5 and M15 also on stop-loss and take-profit: only the M1
    levels and the jitter of the confidence differ. *)
Theorem X18_fallback_batch_agrees
    (data : MarketData) (ts : Z) (random : Timeframe -> num) :
  let batch := generateBatchMockSignals data ts random in
  (forall tf1 tf2,
      type (batch tf1) = type (batch tf2)
      /\ entryPrice (batch tf1) = entryPrice (batch tf2))
  /\ stopLoss (batch M5) = stopLoss (batch M15)
  /\ takeProfit (batch M5) = takeProfit (batch M15).
Proof.
  cbv zeta. unfold generateBatchMockSignals.
  destruct (generateOne_cascade data) as [ty [base [_ H]]].
  split; [| split].
  - intros tf1 tf2.
    destruct (H ts (random tf1) tf1) as [-> [_ [-> _]]].
    destruct (H ts (random tf2) tf2) as [-> [_ [-> _]]]. now split.
  - destruct (H ts (random M5) M5) as [_ [_ [_ [-> _]]]].
    destruct (H ts (random M15) M15) as [_ [_ [_ [-> _]]]]. reflexivity.
  - destruct (H ts (random M5) M5) as [_ [_ [_ [_ ->]]]].
    destruct (H ts (random M15) M15) as [_ [_ [_ [_ ->]]]]. reflexivity.
Qed.

(** The jitter adds 0 to 4 to the base confidence. *)
Lemma jitter_band (base : Z) (random : num) :
  unit_interval random ->
  exists n, Math_floor (add (Fin (inject_Z base)) (mul random (Fin 5)))
            = of_Z n
            /\ (base <= n <= base + 4)%Z.
Proof.
  intros [q [-> [Hq0 Hq1]]].
  destruct (add_is (num_is_Fin (inject_Z base))
                   (mul_is (num_is_Fin q) (num_is_Fin 5)))
    as [x [Hx Hxq]].
  rewrite Hx. cbn [Math_floor]. exists (Qfloor x). split; [reflexivity |].
  split.
  - rewrite <- (Qfloor_Z base). apply Qfloor_resp_le. rewrite Hxq. lra.
  - assert (H : inject_Z (Qfloor x) < inject_Z (base + 5)).
    { apply Qle_lt_trans with x; [apply Qfloor_le |].
      rewrite Hxq, inject_Z_plus. change (inject_Z 5) with 5. lra. }
    rewrite <- Zlt_Qlt in H. lia.
Qed.

(** X19: With a random draw in [0, 1) the confidence is a whole number: 50 to 55
    for WAIT, and 65 to 70 or 80 to 85 for BUY and SELL.  (The exact sum
    base + 5 x draw stays below base + 5; in binary64 a draw within a few
    units in the last place of 1 makes the rounded sum base + 5 itself, the
    top of each band.) *)
Theorem X19_fallback_confidence_bands
    (data : MarketData) (ts : Z) (random : num) (tf : Timeframe) :
  unit_interval random ->
  let s := generateOne data ts random tf in
  exists n,
    confidence s = of_Z n
    /\ match type s with
       | WAIT => (50 <= n <= 55)%Z
       | BUY | SELL => (65 <= n <= 70)%Z \/ (80 <= n <= 85)%Z
       | NEUTRAL => False
       end.
Proof.
  intros Hr s. unfold s.
  destruct (generateOne_cascade data) as [ty [base [Hin H]]].
  destruct (H ts random tf) as [-> [-> _]].
  cbn in Hin.
  destruct Hin as [E | [E | [E | [E | [E | []]]]]]; injection E as <- <-.
  - destruct (jitter_band 80 Hr) as [n [Hn Hb]]. exists n. split; [exact Hn | lia].
  - destruct (jitter_band 80 Hr) as [n [Hn Hb]]. exists n. split; [exact Hn | lia].
  - destruct (jitter_band 65 Hr) as [n [Hn Hb]]. exists n. split; [exact Hn | lia].
  - destruct (jitter_band 65 Hr) as [n [Hn Hb]]. exists n. split; [exact Hn | lia].
  - destruct (jitter_band 50 Hr) as [n [Hn Hb]]. exists n. split; [exact Hn | lia].
Qed.

Lemma geb_of_Z_80 (n : Z) : geb (of_Z n) (Fin 80) = (80 <=? n)%Z.
Proof.
  unfold geb, of_Z. cbn [leb].
  destruct (Z.leb_spec 80 n) as [H | H].
  - apply Qle_bool_iff. change 80 with (inject_Z 80). now rewrite <- Zle_Qle.
  - apply not_true_iff_false. intros Hq. apply Qle_bool_iff in Hq.
    change 80 with (inject_Z 80) in Hq. rewrite <- Zle_Qle in Hq. lia.
Qed.

(** X20: In a simulated batch the alert test has one answer for all three
    timeframes, which is also the answer of [hasHighConfidence]; it is
    positive exactly for the signals of confidence 80 to 85, so the range
    signals (65 to 70) and WAIT (50 to 55) never raise the alert. *)
Theorem X20_simulated_alert_all_or_none
    (data : MarketData) (ts : Z) (random : Timeframe -> num) :
  (forall tf, unit_interval (random tf)) ->
  let batch := generateBatchMockSignals data ts random in
  forall tf,
    highConfidence (batch tf) = hasHighConfidence batch
    /\ exists n, confidence (batch tf) = of_Z n
                 /\ (hasHighConfidence batch = true <-> (80 <= n <= 85)%Z).
Proof.
  intros Hr batch.
  destruct (generateOne_cascade data) as [ty [base [Hin H]]].
  assert (Hone : forall tf,
             exists n, confidence (batch tf) = of_Z n
                       /\ type (batch tf) = ty
                       /\ ((base == 80 /\ ty <> WAIT /\ (80 <= n <= 84)%Z)
                           \/ (~ base == 80 /\ (n <= 69)%Z))).
  { intros tf. unfold batch, generateBatchMockSignals.
    destruct (H ts (random tf) tf) as [Hty [Hc _]]. rewrite Hc, Hty.
    cbn in Hin.
    destruct Hin as [E | [E | [E | [E | [E | []]]]]]; injection E as <- <-.
    - destruct (jitter_band 80 (Hr tf)) as [n [Hn Hb]]. exists n.
      repeat split; try exact Hn; try discriminate.
      left. repeat split; try lia; discriminate.
    - destruct (jitter_band 80 (Hr tf)) as [n [Hn Hb]]. exists n.
      repeat split; try exact Hn; try discriminate.
      left. repeat split; try lia; discriminate.
    - destruct (jitter_band 65 (Hr tf)) as [n [Hn Hb]]. exists n.
      repeat split; try exact Hn; try discriminate.
      right. split; [discriminate | lia].
    - destruct (jitter_band 65 (Hr tf)) as [n [Hn Hb]]. exists n.
      repeat split; try exact Hn; try discriminate.
      right. split; [discriminate | lia].
    - destruct (jitter_band 50 (Hr tf)) as [n [Hn Hb]]. exists n.
      repeat split; try exact Hn; try discriminate.
      right. split; [discriminate | lia]. }
  assert (Hhigh : forall tf,
             highConfidence (batch tf)
             = if Qeq_bool base 80 then true else false).
  { intros tf. destruct (Hone tf) as [n [Hn [Hty Hcase]]].
    unfold highConfidence. rewrite Hn, Hty, geb_of_Z_80.
    destruct Hcase as [[Hb [Hw Hn']] | [Hb Hn']].
    - apply Qeq_bool_iff in Hb. rewrite Hb.
      destruct (Z.leb_spec 80 n); [| lia].
      cbn in Hin.
      destruct Hin as [E | [E | [E | [E | [E | []]]]]];
        injection E as <- _; try reflexivity; congruence.
    - destruct (Qeq_bool base 80) eqn:Hq;
        [apply Qeq_bool_iff in Hq; contradiction |].
      destruct (Z.leb_spec 80 n); [lia | reflexivity]. }
  assert (Hany : hasHighConfidence batch
                 = if Qeq_bool base 80 then true else false).
  { unfold hasHighConfidence. cbn [existsb]. rewrite !Hhigh.
    now destruct (Qeq_bool base 80). }
  intros tf. split; [now rewrite Hhigh, Hany |].
  destruct (Hone tf) as [n [Hn [_ Hcase]]].
  exists n. split; [exact Hn |]. rewrite Hany.
  destruct Hcase as [[Hb [_ Hn']] | [Hb Hn']].
  - apply Qeq_bool_iff in Hb. rewrite Hb. split; [intros _; lia | reflexivity].
  - destruct (Qeq_bool base 80) eqn:Hq;
      [apply Qeq_bool_iff in Hq; contradiction |].
    split; [discriminate | lia].
Qed.

(** ** Calibration and the signal *)




Lemma within_finite (B : Q) (x : num) : within B x -> finite x.
Proof. intros [q [-> _]]. now exists q. Qed.



(** ** The Gemini key *)

(** X25: The server-key indicator of the settings agrees with the service: it is
    on exactly when the service accepts the environment key; the simulation
    is used exactly when the user key is empty or missing and the indicator
    is off; a key that is used is never empty, and a non-empty user key
    always wins. *)
Theorem X25_key_selection (userApiKey envKey : option String.string) :
  hasServerKey envKey = truthy_string (validEnvKey envKey)
  /\ simulationMode userApiKey envKey
     = negb (truthy_string userApiKey) && negb (hasServerKey envKey)
  /\ (truthy_string userApiKey = true ->
      effectiveKey userApiKey envKey = userApiKey)
  /\ (forall k, effectiveKey userApiKey envKey = Some k ->
                k <> ""%string).
Proof.
  assert (H1 : hasServerKey envKey = truthy_string (validEnvKey envKey)).
  { unfold hasServerKey, validEnvKey. destruct envKey as [k |]; [| reflexivity].
    destruct (truthy_string (Some k)) eqn:Ht; cbn [andb]; [| reflexivity].
    destruct (String.eqb k "undefined"%string); cbn [negb andb];
      [now rewrite andb_false_r |].
    destruct (5 <? String.length k)%nat; cbn [andb]; [| reflexivity].
    now rewrite Ht. }
  split; [exact H1 |]. split; [| split].
  - unfold simulationMode, effectiveKey. rewrite H1.
    destruct (truthy_string userApiKey) eqn:Hu;
      [now rewrite Hu | reflexivity].
  - unfold effectiveKey. now intros ->.
  - intros k. unfold effectiveKey.
    destruct (truthy_string userApiKey) eqn:Hu.
    + intros ->. cbn in Hu. intros ->. discriminate.
    + unfold validEnvKey. destruct envKey as [e |]; [| discriminate].
      destruct (truthy_string (Some e)) eqn:He; cbn [andb]; [| discriminate].
      destruct (_ && _); [| discriminate].
      intros [= <-] ->. discriminate.
Qed.

(** ** Change since the previous bar *)

Lemma updateHistory_incl (stored : list Candle) (c x : Candle) :
  In x (updateHistory stored c) -> x = c \/ In x stored.
Proof.
  intros Hx.
  destruct (list_last_cases stored) as [-> | [init [ls Heq]]].
  - destruct Hx as [<- | []]. now left.
  - destruct (Z.eq_dec (time ls) (time c)) as [Ht | Ht].
    + subst stored. rewrite (@updateHistory_amend init ls c Ht) in Hx.
      apply in_app_or in Hx. destruct Hx as [Hx | [<- | []]];
        [right; apply in_or_app; now left | now left].
    + assert (Hnot : ~ same_bucket stored c).
      { intros [init' [ls' [Heq' Ht']]]. subst stored.
        apply app_inj_tail in Heq'. destruct Heq' as [_ <-]. contradiction. }
      rewrite (@updateHistory_append stored c Hnot) in Hx.
      destruct (len stored + 1 >? CAPACITY)%Z.
      * destruct stored as [| o rest]; cbn [app tl] in Hx; [destruct Hx |].
        apply in_app_or in Hx. destruct Hx as [Hx | [<- | []]];
          [right; now right | now left].
      * apply in_app_or in Hx.
        destruct Hx as [Hx | [<- | []]]; [now right | now left].
Qed.

Lemma get_obj_In {A} (l : list A) (i : Z) (x : A) :
  get_obj l i = Some x -> In x l.
Proof.
  unfold get_obj. destruct (i <? 0)%Z; [discriminate |].
  apply nth_error_In.
Qed.

(** The tick callback guards its division: with finite opens and closes the
    change and the percentage it reports are finite numbers, also when the
    previous close is 0. *)
Lemma tick_change_finite
    (sqrt : num -> num) (newCandle : Candle) (st : AppState) :
  Forall (fun c => finite (c_close c)) (candlesRef st) ->
  finite (c_open newCandle) -> finite (c_close newCandle) ->
  exists st',
    onTick sqrt newCandle st = Some st'
    /\ price (marketData st') = c_close newCandle
    /\ finite (change (marketData st'))
    /\ finite (changePercent (marketData st')).
Proof.
  intros Hfin Hopen Hclose.
  destruct (onTick_total sqrt newCandle st) as [st' Hst'].
  exists st'. split; [exact Hst' |].
  unfold onTick in Hst'.
  destruct (processIndicators sqrt (updateHistory (candlesRef st) newCandle))
    as [techs |]; [| discriminate].
  set (updated := updateHistory (candlesRef st) newCandle) in *.
  assert (Hprev : forall pc,
             (if (len updated >? 1)%Z
              then option_map c_close (get_obj updated (len updated - 2))
              else Some (c_open newCandle)) = Some pc -> finite pc).
  { destruct (len updated >? 1)%Z; [| now intros pc [= <-]].
    destruct (get_obj updated (len updated - 2)) as [x |] eqn:Hx;
      [| discriminate].
    intros pc [= <-]. apply get_obj_In in Hx.
    destruct (updateHistory_incl _ _ _ Hx) as [-> | Hin]; [exact Hclose |].
    rewrite Forall_forall in Hfin. now apply Hfin. }
  destruct (if (len updated >? 1)%Z then _ else _) as [prevClose |];
    [| discriminate].
  injection Hst' as <-. cbn [marketData price change changePercent].
  destruct (Hprev prevClose eq_refl) as [pc ->].
  destruct Hclose as [cl ->].
  split; [reflexivity |]. split; [eexists; reflexivity |].
  unfold strict_ne. cbn [strict_eq].
  destruct (Qeq_bool pc 0) eqn:Hz; cbn [negb]; [now exists 0 |].
  apply Qeq_bool_neq in Hz.
  eapply num_is_finite. apply mul_is; [| apply num_is_Fin].
  apply div_is; [| apply num_is_Fin | exact Hz].
  apply sub_is; apply num_is_Fin.
Qed.

Lemma moderate_finite (B : Q) (x : num) : moderate B x -> finite x.
Proof. intros [q [-> _]]. now exists q. Qed.

(** X26: The tick callback guards its division: if the stored closes and the
    open and close of the new candle are each zero or of magnitude between
    10^-100 and 10^100, the change and the percentage it reports are finite
    numbers, also when the previous close is 0.  (The bounds keep the
    quotient by the previous close below the overflow of binary64.) *)
Theorem X26_tick_change_finite
    (sqrt : num -> num) (newCandle : Candle) (st : AppState) :
  Forall (fun c => moderate magnitude_bound (c_close c)) (candlesRef st) ->
  moderate magnitude_bound (c_open newCandle) ->
  moderate magnitude_bound (c_close newCandle) ->
  exists st',
    onTick sqrt newCandle st = Some st'
    /\ price (marketData st') = c_close newCandle
    /\ finite (change (marketData st'))
    /\ finite (changePercent (marketData st')).
Proof.
  intros Hfin Hopen Hclose. apply tick_change_finite.
  - eapply Forall_impl; [| exact Hfin]. intros c. apply moderate_finite.
  - exact (moderate_finite Hopen).
  - exact (moderate_finite Hclose).
Qed.

(** ** The displayed candles *)

(** X27: The displayed candles are the stored ones, as many and at the same
    times; with an offset of magnitude at most 10^100, consistent bars
    whose highs and lows are of magnitude at most 10^100 stay consistent.
    (The order of the four prices survives the rounded addition by
    monotonicity; the bounds keep the sums finite.) *)
Theorem X27_display_candles_consistent (st : AppState) :
  length (displayCandles st) = length (candles st)
  /\ times (displayCandles st) = times (candles st)
  /\ (within magnitude_bound (priceOffset st) ->
      Forall ohlc_consistent (candles st) ->
      Forall (range_within magnitude_bound) (candles st) ->
      Forall ohlc_consistent (displayCandles st)).
Proof.
  unfold displayCandles, times. split; [apply length_map |].
  split; [now rewrite map_map |].
  intros [o [Ho _]] Hall _. rewrite Ho. apply Forall_map.
  eapply Forall_impl; [| exact Hall].
  intros c [op [h [l [cl [H1 [H2 [H3 [H4 [L1 [L2 [L3 L4]]]]]]]]]]].
  destruct (add_is (num_is_Fin op) (num_is_Fin o)) as [op' [E1 Q1]].
  destruct (add_is (num_is_Fin h) (num_is_Fin o)) as [h' [E2 Q2]].
  destruct (add_is (num_is_Fin l) (num_is_Fin o)) as [l' [E3 Q3]].
  destruct (add_is (num_is_Fin cl) (num_is_Fin o)) as [cl' [E4 Q4]].
  exists op', h', l', cl'. cbn [c_open c_high c_low c_close].
  rewrite H1, H2, H3, H4.
  repeat split; auto; lra.
Qed.

(** ** The range of ADX *)

Lemma directionalMove_nonneg (highs lows : list num) (i : Z) :
  finite (get highs i) -> finite (get highs (i - 1)) ->
  finite (get lows i) -> finite (get lows (i - 1)) ->
  nonneg (fst (directionalMove highs lows i))
  /\ nonneg (snd (directionalMove highs lows i)).
Proof.
  intros Hh Hh' Hl Hl'. unfold directionalMove.
  destruct Hh as [a ->], Hh' as [a' ->], Hl as [b ->], Hl' as [b' ->].
  destruct (gtb (sub (Fin a) (Fin a')) (sub (Fin b') (Fin b))
            && gtb (sub (Fin a) (Fin a')) (Fin 0)) eqn:H1.
  - apply andb_true_iff in H1. destruct H1 as [_ H1]. cbn [fst snd].
    split; [| apply zero_nonneg].
    apply gtb_0_nonneg; [eexists; reflexivity | exact H1].
  - destruct (gtb (sub (Fin b') (Fin b)) (sub (Fin a) (Fin a'))
              && gtb (sub (Fin b') (Fin b)) (Fin 0)) eqn:H2;
      cbn [fst snd]; [| split; apply zero_nonneg].
    apply andb_true_iff in H2. destruct H2 as [_ H2].
    split; [apply zero_nonneg |].
    apply gtb_0_nonneg; [eexists; reflexivity | exact H2].
Qed.

Lemma smooth_step_nonneg (s x : num) (period : Z) :
  (1 <= period)%Z -> nonneg s -> nonneg x ->
  nonneg (add (sub s (div s (of_Z period))) x).
Proof.
  intros Hp [a [-> Ha]] [b [-> Hb]].
  assert (Hpos : 1 <= inject_Z period).
  { change 1 with (inject_Z 1). rewrite <- Zle_Qle. lia. }
  assert (Hd : num_is (div (Fin a) (of_Z period)) (a / inject_Z period)).
  { apply div_is; [apply num_is_Fin | apply num_is_Fin | lra]. }
  assert (Hle : a / inject_Z period <= a).
  { apply Qle_shift_div_r; [lra |].
    setoid_replace (a * inject_Z period)
      with (a + a * (inject_Z period - 1)) by ring.
    assert (0 <= a * (inject_Z period - 1))
      by (apply Qmult_le_0_compat; lra).
    lra. }
  apply nonneg_is with (q := a - a / inject_Z period + b); [| lra].
  apply add_is; [| apply num_is_Fin].
  apply sub_is; [apply num_is_Fin | exact Hd].
Qed.

(** The directional index of three smoothed sums that are not negative is
    not a number or lies between 0 and 100. *)
Lemma dx_range (sp sm tr : num) :
  nonneg sp -> nonneg sm -> nonneg tr ->
  let plusDI := mul (div sp tr) (Fin 100) in
  let minusDI := mul (div sm tr) (Fin 100) in
  let dx := mul (div (Math_abs (sub plusDI minusDI)) (add plusDI minusDI))
                (Fin 100) in
  toFixed2 dx = NaN \/ in_0_100 (toFixed2 dx) = true.
Proof.
  intros [a [-> Ha]] [b [-> Hb]] [t [-> Ht]]. cbv zeta.
  destruct (Qeq_bool t 0) eqn:Hz.
  - left. cbn [div]. unfold Qzero. rewrite Hz.
    destruct (Qeq_bool a 0); destruct (Qeq_bool b 0);
      unfold inf_signed; destruct (Qpos a); destruct (Qpos b); reflexivity.
  - apply Qeq_bool_neq in Hz.
    assert (Htpos : 0 < t).
    { destruct (Qlt_le_dec 0 t) as [H | H]; [exact H |].
      exfalso. apply Hz. lra. }
    assert (HA0 : 0 <= a / t * 100).
    { assert (0 <= a / t) by (apply Qle_shift_div_l; lra). lra. }
    assert (HB0 : 0 <= b / t * 100).
    { assert (0 <= b / t) by (apply Qle_shift_div_l; lra). lra. }
    pose proof (mul_is (div_is (num_is_Fin a) (num_is_Fin t) Hz)
                       (num_is_Fin 100)) as HA.
    pose proof (mul_is (div_is (num_is_Fin b) (num_is_Fin t) Hz)
                       (num_is_Fin 100)) as HB.
    set (A := a / t * 100) in *. set (B := b / t * 100) in *.
    destruct (sub_is HA HB) as [d [Hd Hdq]].
    destruct (add_is HA HB) as [s [Hs Hsq]].
    rewrite Hd, Hs.
    assert (Habs : Qabs d <= s).
    { apply Qabs_Qle_condition. rewrite Hdq, Hsq. split; lra. }
    pose proof (Qabs_nonneg d) as Hd0.
    destruct (Qeq_bool s 0) eqn:Hs0.
    + left. change (Math_abs (Fin d)) with (Fin (Qred (Qabs d))).
      cbn [div]. unfold Qzero. rewrite Hs0.
      apply Qeq_bool_iff in Hs0.
      assert (Hz0 : Qeq_bool (Qred (Qabs d)) 0 = true).
      { apply Qeq_bool_iff. rewrite Qred_correct. lra. }
      rewrite Hz0. reflexivity.
    + right. apply Qeq_bool_neq in Hs0.
      assert (Hspos : 0 < s) by lra.
      assert (H0 : 0 <= Qabs d / s) by (apply Qle_shift_div_l; lra).
      assert (H1 : Qabs d / s <= 1) by (apply Qle_shift_div_r; lra).
      apply toFixed2_in_0_100 with (q := Qabs d / s * 100); [| lra | lra].
      apply mul_is; [| apply num_is_Fin].
      apply div_is; [| apply num_is_Fin | exact Hs0].
      change (Math_abs (Fin d)) with (fin (Qabs d)).
      apply num_is_fin. reflexivity.
Qed.

(** For a period of at least 1 and finite highs, lows and closes of equal
    number, ADX is not a number or a finite value between 0 and 100: it is
    never negative and never infinite. *)
Lemma calculateADX_range
    (highs lows closes : list num) (period : Z) :
  (1 <= period)%Z ->
  len lows = len highs -> len closes = len highs ->
  Forall finite highs -> Forall finite lows -> Forall finite closes ->
  calculateADX highs lows closes period = NaN
  \/ in_0_100 (calculateADX highs lows closes period) = true.
Proof.
  intros Hp Hl Hc Hfh Hfl Hfc. unfold calculateADX.
  destruct (Z.ltb_spec (len highs) (period * 2)) as [_ | Hlen];
    [right; reflexivity |].
  cbv zeta.
  set (idx := range 1 (len highs)).
  set (trs := map (trueRange highs lows closes) idx).
  set (plusDMs := map (fun i => fst (directionalMove highs lows i)) idx).
  set (minusDMs := map (fun i => snd (directionalMove highs lows i)) idx).
  assert (Hidx : len idx = (len highs - 1)%Z)
    by (unfold idx; rewrite len_range; lia).
  assert (Htrs : Forall nonneg trs).
  { apply Forall_forall. intros x Hx. apply in_map_iff in Hx.
    destruct Hx as [i [<- Hi]]. apply in_range in Hi.
    apply trueRange_nonneg; apply get_finite; auto; lia. }
  assert (Hdm : forall i, In i idx ->
                          nonneg (fst (directionalMove highs lows i))
                          /\ nonneg (snd (directionalMove highs lows i))).
  { intros i Hi. apply in_range in Hi.
    apply directionalMove_nonneg; apply get_finite; auto; lia. }
  assert (Hplus : Forall nonneg plusDMs).
  { apply Forall_forall. intros x Hx. apply in_map_iff in Hx.
    destruct Hx as [i [<- Hi]]. now apply Hdm. }
  assert (Hminus : Forall nonneg minusDMs).
  { apply Forall_forall. intros x Hx. apply in_map_iff in Hx.
    destruct Hx as [i [<- Hi]]. now apply Hdm. }
  assert (Hsmooth : forall xs,
             Forall nonneg xs -> len xs = len trs ->
             nonneg (fold_left
                       (fun s i => add (sub s (div s (of_Z period)))
                                       (get xs i))
                       (range period (len trs))
                       (JS.sum (slice 0 period xs)))).
  { intros xs Hxs Hlx.
    apply (@loop_invariant _ (fun _ s => nonneg s));
      [unfold trs; rewrite len_map; lia | |].
    - apply sum_nonneg. now apply slice_Forall.
    - intros i s Hi Hs. apply smooth_step_nonneg; [exact Hp | exact Hs |].
      apply get_Forall with (P := nonneg); [exact Hxs | lia]. }
  apply dx_range; apply Hsmooth; auto;
    unfold plusDMs, minusDMs, trs; now rewrite !len_map.
Qed.

(** ** The snapshot of a consistent series *)






(* ================================================================== *)
(** * Further statements and their instances *)
(* ================================================================== *)

Lemma unit_interval_quarter (j : nat) : unit_interval (constant_random (1 # 4) j).
Proof. exists (1 # 4). split; [reflexivity |]. split; [discriminate | reflexivity]. Qed.

Lemma unit_interval_half : unit_interval (Fin (1 # 2)).
Proof. exists (1 # 2). split; [reflexivity |]. split; [discriminate | reflexivity]. Qed.


Lemma finite_Fin (q : Q) : finite (Fin q).
Proof. now exists q. Qed.

(** A value that is not zero is moderate within the bounds it meets. *)
Lemma moderate_Fin (B q : Q) :
  Qabs q <= B -> 1 / B <= Qabs q -> moderate B (Fin q).
Proof. intros H1 H2. exists q. split; [reflexivity |]. split; [exact H1 | now right]. Qed.







Lemma Forall_within_finite (B : Q) (l : list num) :
  Forall (within B) l -> Forall finite l.
Proof.
  intros H. eapply Forall_impl; [| exact H]. intros x. apply within_finite.
Qed.

(** X6: With [period >= 1], more than [period] bars and highs, lows and
    closes of magnitude at most 10^100 for every bar, the ATR is a finite
    number that is not negative.  (The bound keeps the true ranges and
    their sum finite in binary64.) *)
Theorem X6_atr_nonneg
    (highs lows closes : list num) (period : Z)
    (Hperiod : (1 <= period)%Z) (Hlen : (period + 1 <= len highs)%Z)
    (Hlows : len lows = len highs) (Hcloses : len closes = len highs)
    (Hfh : Forall (within magnitude_bound) highs)
    (Hfl : Forall (within magnitude_bound) lows)
    (Hfc : Forall (within magnitude_bound) closes) :
  nonneg (calculateATR highs lows closes period).
Proof.
  exact (calculateATR_nonneg Hperiod Hlen Hlows Hcloses
           (Forall_within_finite Hfh) (Forall_within_finite Hfl)
           (Forall_within_finite Hfc)).
Qed.

Lemma X6_atr_nonneg_witness :
  nonneg (calculateATR [Fin 3; Fin 4; Fin 5] [Fin 1; Fin 2; Fin 3]
                       [Fin 2; Fin 3; Fin 4] 2).
Proof.
  apply (@X6_atr_nonneg [Fin 3; Fin 4; Fin 5] [Fin 1; Fin 2; Fin 3]
           [Fin 2; Fin 3; Fin 4] 2);
    try reflexivity; try (unfold len; cbn; lia);
    repeat constructor; apply within_Fin; discriminate.
Defined.

(** X7: For every period of at least 1 and every array of closes of
    magnitude at most 10^100, of whatever length, the RSI is a finite
    number between 0 and 100.  (The bound keeps the differences of closes
    and their sums finite in binary64, where the range then holds by
    monotonicity of the rounded operations.) *)
Theorem X7_rsi_in_0_100
    (prices : list num) (period : Z)
    (Hperiod : (1 <= period)%Z)
    (Hfin : Forall (within magnitude_bound) prices) :
  in_0_100 (calculateRSI prices period) = true.
Proof. exact (calculateRSI_in_0_100 Hperiod (Forall_within_finite Hfin)). Qed.

Lemma X7_rsi_in_0_100_witness :
  in_0_100 (calculateRSI [Fin 3; Fin 1; Fin 2; Fin 5] 2) = true.
Proof.
  apply (@X7_rsi_in_0_100 [Fin 3; Fin 1; Fin 2; Fin 5] 2).
  - lia.
  - repeat constructor; apply within_Fin; discriminate.
Defined.

(** X8: For a period of at least 1 and finite highs, lows and closes of
    equal number, ADX is not a number or a finite value between 0 and 100:
    it is never negative and never infinite. *)
Theorem X8_adx_range
    (highs lows closes : list num) (period : Z)
    (Hperiod : (1 <= period)%Z)
    (Hlows : len lows = len highs) (Hcloses : len closes = len highs)
    (Hfh : Forall finite highs) (Hfl : Forall finite lows)
    (Hfc : Forall finite closes) :
  calculateADX highs lows closes period = NaN
  \/ in_0_100 (calculateADX highs lows closes period) = true.
Proof. exact (calculateADX_range Hperiod Hlows Hcloses Hfh Hfl Hfc). Qed.

Lemma X8_adx_range_witness :
  calculateADX [Fin 3; Fin 4; Fin 5; Fin 7] [Fin 1; Fin 2; Fin 3; Fin 4]
               [Fin 2; Fin 3; Fin 4; Fin 5] 2 = NaN
  \/ in_0_100 (calculateADX [Fin 3; Fin 4; Fin 5; Fin 7]
                 [Fin 1; Fin 2; Fin 3; Fin 4]
                 [Fin 2; Fin 3; Fin 4; Fin 5] 2) = true.
Proof.
  apply (@X8_adx_range [Fin 3; Fin 4; Fin 5; Fin 7]
           [Fin 1; Fin 2; Fin 3; Fin 4] [Fin 2; Fin 3; Fin 4; Fin 5] 2);
    try reflexivity; try lia; repeat constructor; apply finite_Fin.
Defined.

Lemma X12_ichimoku_chart_last_points_witness :
  exists ts ks,
    tenkanSeries (generateIchimokuData (rising_bars ++ [bar_26]))
    = ts ++ [mkLinePoint
               (div (of_Z (time bar_26)) (Fin 1000))
               (tenkan (calculateIchimoku
                          (map c_high (rising_bars ++ [bar_26]))
                          (map c_low (rising_bars ++ [bar_26]))))]
    /\ kijunSeries (generateIchimokuData (rising_bars ++ [bar_26]))
       = ks ++ [mkLinePoint
                  (div (of_Z (time bar_26)) (Fin 1000))
                  (kijun (calculateIchimoku
                            (map c_high (rising_bars ++ [bar_26]))
                            (map c_low (rising_bars ++ [bar_26]))))].
Proof.
  apply (@X12_ichimoku_chart_last_points rising_bars bar_26).
  vm_compute. discriminate.
Defined.

(** X13: Every candle the Twelve Data handler produces from finite quotes,
    starting from a consistent candle, keeps its open and close between its
    low and high; the candles' times never go below the starting candle's
    and never decrease, whatever the clock readings. *)
Theorem X13_twelve_data_stream
    (events : list (num * Z)) (cur : Candle)
    (Hcur : ohlc_consistent cur)
    (Hquotes : Forall (fun e => finite (fst e)) events) :
  Forall ohlc_consistent (twelveUpdates events cur)
  /\ Forall (fun c => (time cur <= time c)%Z) (twelveUpdates events cur)
  /\ StronglySorted Z.le (map time (twelveUpdates events cur)).
Proof. exact (twelveUpdates_stream Hcur Hquotes). Qed.

Lemma X13_twelve_data_stream_witness :
  Forall ohlc_consistent
    (twelveUpdates three_quotes (twelveInitialCandle 59999 (Fin 2650)))
  /\ Forall (fun c => (time (twelveInitialCandle 59999 (Fin 2650))
                       <= time c)%Z)
       (twelveUpdates three_quotes (twelveInitialCandle 59999 (Fin 2650)))
  /\ StronglySorted Z.le
       (map time
          (twelveUpdates three_quotes
             (twelveInitialCandle 59999 (Fin 2650)))).
Proof.
  apply (@X13_twelve_data_stream three_quotes
           (twelveInitialCandle 59999 (Fin 2650))).
  - apply twelveInitialCandle_consistent.
  - repeat constructor; apply finite_Fin.
Defined.

(** X14: Over a session whose ticks come in time order and are no older
    than the stored bars, the tick callback always completes and keeps the
    times of the series strictly increasing; the series holds stored bars
    and tick candles only. *)
Theorem X14_series_time_order
    (sqrt : num -> num) (ticks : list Candle) (st : AppState)
    (Hstored : StronglySorted Z.lt (times (candlesRef st)))
    (Hticks : StronglySorted Z.le (times ticks))
    (Hafter : forall x y, In x (times (candlesRef st)) ->
                          In y (times ticks) -> (x <= y)%Z) :
  exists st',
    run_ticks sqrt ticks st = Some st'
    /\ StronglySorted Z.lt (times (candlesRef st'))
    /\ (forall c, In c (candlesRef st') ->
                  In c ticks \/ In c (candlesRef st)).
Proof. exact (@run_ticks_order sqrt ticks st Hstored Hticks Hafter). Qed.

Lemma X14_series_time_order_witness :
  exists st',
    run_ticks (fun x => x) [bar 60000 2651; bar 120000 2652] session_state
    = Some st'
    /\ StronglySorted Z.lt (times (candlesRef st'))
    /\ (forall c, In c (candlesRef st') ->
                  In c [bar 60000 2651; bar 120000 2652]
                  \/ In c (candlesRef session_state)).
Proof.
  apply (@X14_series_time_order (fun x => x)
           [bar 60000 2651; bar 120000 2652] session_state).
  - repeat constructor.
  - repeat (constructor; try (cbn; lia)).
  - intros x y [<- | []] [<- | [<- | []]]; cbn; lia.
Defined.

Lemma X15_twelve_data_session_witness :
  exists st',
    run_ticks (fun x => x)
      (twelveUpdates three_quotes (twelveInitialCandle 59999 (Fin 2650)))
      initialState = Some st'
    /\ StronglySorted Z.lt (times (candlesRef st'))
    /\ (len (candlesRef st') <= CAPACITY)%Z
    /\ Forall ohlc_consistent (candlesRef st').
Proof.
  apply (@X15_twelve_data_session (fun x => x) 59999 2650 three_quotes
           initialState).
  - reflexivity.
  - repeat constructor; apply finite_Fin.
Defined.

Lemma X16_mock_history_bars_witness :
  len (generateMockHistory 3 1000000123 (constant_random (1 # 4)))
  = Z.max 0 3
  /\ Forall ohlc_consistent
       (generateMockHistory 3 1000000123 (constant_random (1 # 4)))
  /\ times (generateMockHistory 3 1000000123 (constant_random (1 # 4)))
     = map (fun i => (minuteStart 1000000123 - i * 60000)%Z) (countdown 3)
  /\ StronglySorted Z.lt
       (times (generateMockHistory 3 1000000123 (constant_random (1 # 4))))
  /\ contiguous (Fin 2650)
       (generateMockHistory 3 1000000123 (constant_random (1 # 4))).
Proof.
  apply (@X16_mock_history_bars 3 1000000123 (constant_random (1 # 4))).
  exact unit_interval_quarter.
Defined.

Lemma X19_fallback_confidence_bands_witness :
  exists n,
    confidence (generateOne ranging_at_lower_band 0 (Fin (1 # 2)) M5)
    = of_Z n
    /\ match type (generateOne ranging_at_lower_band 0 (Fin (1 # 2)) M5)
       with
       | WAIT => (50 <= n <= 55)%Z
       | BUY | SELL => (65 <= n <= 70)%Z \/ (80 <= n <= 85)%Z
       | NEUTRAL => False
       end.
Proof.
  apply (@X19_fallback_confidence_bands ranging_at_lower_band 0
           (Fin (1 # 2)) M5).
  exact unit_interval_half.
Defined.

Lemma X20_simulated_alert_all_or_none_witness :
  highConfidence
    (generateBatchMockSignals ranging_at_lower_band 0
       (fun _ => Fin (1 # 2)) M1)
  = hasHighConfidence
      (generateBatchMockSignals ranging_at_lower_band 0
         (fun _ => Fin (1 # 2)))
  /\ exists n,
       confidence
         (generateBatchMockSignals ranging_at_lower_band 0
            (fun _ => Fin (1 # 2)) M1) = of_Z n
       /\ (hasHighConfidence
             (generateBatchMockSignals ranging_at_lower_band 0
                (fun _ => Fin (1 # 2))) = true
           <-> (80 <= n <= 85)%Z).
Proof.
  apply (@X20_simulated_alert_all_or_none ranging_at_lower_band 0
           (fun _ => Fin (1 # 2)) (fun _ => unit_interval_half) M1).
Defined.



(** X23: Over any sequence of ticks the tick callback completes, the
    snapshot's high and low are the running maximum and minimum of the
    starting snapshot's and of every tick's high and low, and a series
    within the capacity of 300 stays within it. *)
Theorem X23_session_running_extremes
    (sqrt : num -> num) (ticks : list Candle) (st : AppState) :
  exists st',
    run_ticks sqrt ticks st = Some st'
    /\ high (marketData st')
       = fold_left max2 (map c_high ticks) (high (marketData st))
    /\ low (marketData st')
       = fold_left min2 (map c_low ticks) (low (marketData st))
    /\ ((len (candlesRef st) <= CAPACITY)%Z ->
        (len (candlesRef st') <= CAPACITY)%Z).
Proof. exact (run_ticks_session sqrt ticks st). Qed.

(** X24: The indicators are computed from the candle series alone: two
    states that differ in the calibration offset only get the same series
    and the same snapshot from a tick and from a history load, and
    calibrating changes neither the snapshot nor the series. *)
Theorem X24_indicators_ignore_offset
    (sqrt : num -> num) (st : AppState) (o1 o2 : num) :
  (forall c,
      option_map marketData (onTick sqrt c (with_offset o1 st))
      = option_map marketData (onTick sqrt c (with_offset o2 st))
      /\ option_map candlesRef (onTick sqrt c (with_offset o1 st))
         = option_map candlesRef (onTick sqrt c (with_offset o2 st)))
  /\ (forall history,
         option_map marketData (loadHistory sqrt history (with_offset o1 st))
         = option_map marketData
             (loadHistory sqrt history (with_offset o2 st)))
  /\ (forall userPrice,
         marketData (handleCalibrate userPrice st) = marketData st
         /\ candlesRef (handleCalibrate userPrice st) = candlesRef st).
Proof. exact (indicators_ignore_offset sqrt st o1 o2). Qed.

Lemma X26_tick_change_finite_witness :
  exists st',
    onTick (fun x => x) lower_bar session_state = Some st'
    /\ price (marketData st') = c_close lower_bar
    /\ finite (change (marketData st'))
    /\ finite (changePercent (marketData st')).
Proof.
  apply (@X26_tick_change_finite (fun x => x) lower_bar session_state).
  - repeat constructor. apply moderate_Fin; discriminate.
  - apply moderate_Fin; discriminate.
  - apply moderate_Fin; discriminate.
Defined.


